(** * Amazon PPC Optimizer (app.py): winner decision, cannibalization
      orchestrator, harvest filter and numeric coercion.

    A data frame is a list of rows paired with their index label, in frame
    order.  The numbers a frame stores (int64 or finite binary64 values) are
    rationals [Q], and the comparisons of the source on them are exact.

    The arithmetic of the source rounds.  Two readings are kept apart:
    - [determine_winner_on], [tab1_on]: every [-] and [/] of the source is
      taken from an [Arith], so that what is proved of them holds whatever the
      rounding; [binary64_arith] is IEEE 754 double precision, [exact_arith]
      the unrounded operations.  [.loc] is read with what it returns on a
      duplicated label.
    - [determine_winner], [tab1], [aggregate]: the unrounded operations, on
      frames with unique labels; used for the properties that do not depend
      on any arithmetic result (which rows, which labels, which order).
    Overflow to an infinity and NaN are outside both. *)

From Stdlib Require Import QArith ZArith List String Ascii Bool Lia Permutation.
From Corelib Require Import SpecFloat.
From stdpp Require Import base option list gmap strings sorting.
Import ListNotations.

Local Open Scope Q_scope.

(** ** Numeric comparisons of the source ([>], [>=], [==]) on [Q] *)

Definition Qlt_bool (x y : Q) : bool := negb (Qle_bool y x).

(** ** Data model *)

(** [norm_match]: the labels [normalize_match_type] can return. *)
Inductive MatchType := EXACT | PHRASE | BROAD | AUTO_OTHER | UNKNOWN.

Definition MatchType_eqb (a b : MatchType) : bool :=
  match a, b with
  | EXACT, EXACT | PHRASE, PHRASE | BROAD, BROAD
  | AUTO_OTHER, AUTO_OTHER | UNKNOWN, UNKNOWN => true
  | _, _ => false
  end.

(** One row of [df_agg] after the metric calculation. *)
Record Row := mkRow {
  search_term : string;
  campaign : string;
  ad_group : string;
  norm_match : MatchType;
  orders_val : Q;
  sales_val : Q;
  spend_val : Q;
  calculated_roas : Q
}.

(** [x['sales_val']/x['spend_val'] if x['spend_val'] > 0 else 0], with the
    unrounded quotient; [roas_on] takes the division of an [Arith]. *)
Definition roas_of (sales spend : Q) : Q :=
  if Qlt_bool 0 spend then sales / spend else 0.

(** A frame: rows with their index labels, in frame order. *)
Definition DataFrame := list (nat * Row).

(** [df_agg] carries a fresh RangeIndex ([as_index=False]). *)
Definition range_index (rows : list Row) : DataFrame :=
  combine (seq 0 (length rows)) rows.

Definition labels (df : DataFrame) : list nat := map fst df.

(** [Series.idxmax]: label of the first occurrence of the maximum;
    raises on an empty series ([None]). *)
Fixpoint idxmax_from (col : Row -> Q) (best : nat * Row) (rest : DataFrame) : nat :=
  match rest with
  | [] => fst best
  | r :: rest' =>
      if Qlt_bool (col (snd best)) (col (snd r))
      then idxmax_from col r rest'
      else idxmax_from col best rest'
  end.

Definition idxmax (col : Row -> Q) (df : DataFrame) : option nat :=
  match df with
  | [] => None
  | r :: rest => Some (idxmax_from col r rest)
  end.

(** [df.loc[label]] on a frame with unique labels: the row carrying the
    label; [None] stands for KeyError.  [loc_label] is [.loc] on any frame. *)
Definition loc (df : DataFrame) (label : nat) : option Row :=
  snd <$> List.find (fun r => Nat.eqb (fst r) label) df.

(** Reason texts are kept as the pieces of the source's (f-)strings, so that
    formatted numbers stay exact. *)
Inductive Frag :=
| Lit (s : string)          (* literal text *)
| FmtPct0 (x : Q)           (* {x:.0%} *)
| FmtVal (x : Q).           (* {x} *)

Definition Reason := list Frag.

Definition reason_best : Reason := [Lit "🏆 Best Sales & ROAS"].
Definition reason_efficient (improvement : Q) : Reason :=
  [Lit "💎 Efficient Choice (ROAS +"; FmtPct0 improvement; Lit ")"].
Definition reason_vol_challenger (orders : Q) : Reason :=
  [Lit "📦 Vol Leader (Challenger had only "; FmtVal orders; Lit " order)"].
Definition reason_volume : Reason := [Lit "📦 Volume Leader"].

(** ** determine_winner, unrounded, on frames with unique labels *)

(** The improvement with the unrounded [-] and [/]; [determine_winner_on]
    takes them from an [Arith]. *)
Definition improvement_of (roas_sales roas_challenger : Q) : Q :=
  if Qeq_bool roas_sales 0 then 999
  else (roas_challenger - roas_sales) / roas_sales.

Definition determine_winner (group : DataFrame) (improvement_thresh min_orders : Q)
  : option (nat * Reason) :=
  max_sales_idx ← idxmax sales_val group;
  sales_leader ← loc group max_sales_idx;
  max_roas_idx ← idxmax calculated_roas group;
  roas_leader ← loc group max_roas_idx;
  if Nat.eqb max_sales_idx max_roas_idx then
    Some (max_sales_idx, reason_best)
  else
    let roas_sales := calculated_roas sales_leader in
    let roas_challenger := calculated_roas roas_leader in
    let improvement := improvement_of roas_sales roas_challenger in
    let threshold_decimal := improvement_thresh / 100 in
    if Qle_bool threshold_decimal improvement
       && Qle_bool min_orders (orders_val roas_leader)
    then Some (max_roas_idx, reason_efficient improvement)
    else if Qle_bool threshold_decimal improvement
    then Some (max_sales_idx, reason_vol_challenger (orders_val roas_leader))
    else Some (max_sales_idx, reason_volume).

(** Scenario rows of the specification. *)
Definition row_of (term camp adg : string) (m : MatchType) (orders sales spend : Q) : Row :=
  mkRow term camp adg m orders sales spend (roas_of sales spend).

Definition scenarioA : DataFrame :=
  [ (0%nat, row_of "shoes" "C1" "G1" BROAD 5 100 50);
    (1%nat, row_of "shoes" "C2" "G2" PHRASE 3 40 10) ].


(** ** Cannibalization orchestrator (tab 1) *)

(** [df_agg[df_agg['orders_val'] > 0]] *)
Definition sales_df_of (df_agg : DataFrame) : DataFrame :=
  List.filter (fun r => Qlt_bool 0 (orders_val (snd r))) df_agg.

(** [df[df['search_term'] == term]] *)
Definition rows_of_term (df : DataFrame) (term : string) : DataFrame :=
  List.filter (fun r => String.eqb (search_term (snd r)) term) df.

(** Order of the group keys: Python compares [str] by code point, which on
    UTF-8 text is the order of the bytes. *)
Definition str_le (a b : string) : Prop := String.leb a b = true.

#[global] Instance str_le_dec : RelDecision str_le.
Proof. intros a b. unfold str_le. apply bool_eq_dec. Defined.

(** Keys of [df.groupby('search_term')]: the distinct terms, sorted. *)
Definition group_keys (df : DataFrame) : list string :=
  merge_sort str_le (remove_dups (map (fun r => search_term (snd r)) df)).

(** [df.groupby('search_term').size()] *)
Definition groupby_size (df : DataFrame) : list (string * nat) :=
  map (fun t => (t, length (rows_of_term df t))) (group_keys df).

(** [dupe_check[dupe_check > 1].index.tolist()] *)
Definition cannibal_terms_of (sales_df : DataFrame) : list string :=
  map fst (List.filter (fun p => Nat.ltb 1 (snd p)) (groupby_size sales_df)).

Inductive Status := KEEP | NEGATE.

Record ResultRow := mkResult {
  res_term : string;
  res_campaign : string;
  res_ad_group : string;
  res_spend : Q;
  res_sales : Q;
  res_orders : Q;
  res_roas : Q;
  res_status : Status;
  res_reason : Reason
}.

Definition reason_lower : Reason := [Lit "Lower Efficiency/Vol"].

(** Body of [for idx, row in subset.iterrows()]. *)
Definition result_row (term : string) (win_idx : nat) (reason : Reason)
    (ir : nat * Row) : ResultRow :=
  let is_winner := Nat.eqb (fst ir) win_idx in
  mkResult term (campaign (snd ir)) (ad_group (snd ir))
           (spend_val (snd ir)) (sales_val (snd ir)) (orders_val (snd ir))
           (calculated_roas (snd ir))
           (if is_winner then KEEP else NEGATE)
           (if is_winner then reason else reason_lower).

(** State of the results loop: the [results] list, and the groups handed to
    [determine_winner] so far (a trace kept for the specification). *)
Record LoopState := mkLoop {
  results : list ResultRow;
  engine_calls : list DataFrame
}.

(** [for term in cannibal_terms: ...]; [None] when [determine_winner] raises. *)
Fixpoint results_loop (sales_df : DataFrame) (roas_threshold min_orders_for_roas : Q)
    (terms : list string) (st : LoopState) : option LoopState :=
  match terms with
  | [] => Some st
  | term :: rest =>
      let subset := rows_of_term sales_df term in
      match determine_winner subset roas_threshold min_orders_for_roas with
      | None => None
      | Some (win_idx, reason) =>
          results_loop sales_df roas_threshold min_orders_for_roas rest
            (mkLoop (results st ++ map (result_row term win_idx reason) subset)
                    (engine_calls st ++ [subset]))
      end
  end.

(** What tab 1 shows. *)
Inductive Tab1View :=
| StSuccess (msg : string)                 (* st.success: nothing to fix *)
| ActionPlan (res_df : list ResultRow)     (* the annotated table *)
| StError.                                 (* the outer except branch *)

Record Tab1 := mkTab1 {
  view : Tab1View;
  calls : list DataFrame
}.

Definition tab1 (df_agg : DataFrame) (roas_threshold min_orders_for_roas : Q) : Tab1 :=
  let sales_df := sales_df_of df_agg in
  let cannibal_terms := cannibal_terms_of sales_df in
  match cannibal_terms with
  | [] => mkTab1 (StSuccess "✅ No cannibalization found! Your account structure is clean.") []
  | _ =>
      match results_loop sales_df roas_threshold min_orders_for_roas
                         cannibal_terms (mkLoop [] []) with
      | Some st => mkTab1 (ActionPlan (results st)) (engine_calls st)
      | None => mkTab1 StError []
      end
  end.

(** The source columns a result row copies. *)
Definition row_fields (r : Row) : string * string * string * Q * Q * Q * Q :=
  (search_term r, campaign r, ad_group r, spend_val r, sales_val r, orders_val r,
   calculated_roas r).

Definition res_fields (r : ResultRow) : string * string * string * Q * Q * Q * Q :=
  (res_term r, res_campaign r, res_ad_group r, res_spend r, res_sales r, res_orders r,
   res_roas r).

(** ** Harvest filter (tab 2) *)

Section Harvest.
(** Python's [str.lower] (Unicode aware), kept abstract. *)
Variable str_lower : string -> string.

(** [set(df_agg[df_agg['norm_match'] == 'EXACT']['search_term'].str.lower().unique())] *)
Definition exact_terms (df_agg : DataFrame) : gset string :=
  list_to_set
    (map (fun r => str_lower (search_term (snd r)))
         (List.filter (fun r => MatchType_eqb (norm_match (snd r)) EXACT) df_agg)).

Definition candidates (df_agg : DataFrame) : DataFrame :=
  List.filter (fun r => negb (MatchType_eqb (norm_match (snd r)) EXACT)
                        && Qle_bool 1 (orders_val (snd r))) df_agg.

(** [candidates[~candidates['search_term'].str.lower().isin(exact_terms)]] *)
Definition new_opps (df_agg : DataFrame) : DataFrame :=
  List.filter
    (fun r => negb (bool_decide (str_lower (search_term (snd r)) ∈ exact_terms df_agg)))
    (candidates df_agg).
End Harvest.

(** Lower-casing restricted to the ASCII letters, used for concrete runs. *)
Definition ascii_lower_char (c : ascii) : ascii :=
  let n := N_of_ascii c in
  if (N.leb 65 n && N.leb n 90)%bool then ascii_of_N (n + 32) else c.

Fixpoint ascii_lower (s : string) : string :=
  match s with
  | EmptyString => EmptyString
  | String c s' => String (ascii_lower_char c) (ascii_lower s')
  end.

Definition scenarioC : DataFrame :=
  [ (0%nat, row_of "blue shoes" "C1" "G1" EXACT 0 0 4);
    (1%nat, row_of "Blue Shoes" "C2" "G2" BROAD 1 20 5);
    (2%nat, row_of "red shoes" "C2" "G2" BROAD 2 30 5) ].

(** ** Numeric coercion at ingestion *)

(** A cell as read from the file: already numeric, text, or missing. *)
Inductive Cell :=
| CNum (q : Q)
| CStr (s : string)
| CNaN.

Section Coercion.
(** The number a text cell denotes for pandas, if any. *)
Variable parse_number : string -> option Q.

(** [pd.to_numeric(.., errors='coerce')] on one cell; [None] is NaN. *)
Definition to_numeric_coerce (c : Cell) : option Q :=
  match c with
  | CNum q => Some q
  | CStr s => parse_number s
  | CNaN => None
  end.

(** [.fillna(0)] *)
Definition fillna0 (o : option Q) : Q :=
  match o with Some q => q | None => 0 end.

Definition clean_column (col : list Cell) : list Q :=
  map (fun c => fillna0 (to_numeric_coerce c)) col.

(** The three columns of [for c in ['orders', 'sales', 'spend']]. *)
Record NumericColumns (A : Type) := mkCols {
  col_orders : list A;
  col_sales : list A;
  col_spend : list A
}.

Definition clean_numbers (df : NumericColumns Cell) : NumericColumns Q :=
  mkCols Q (clean_column (col_orders Cell df))
           (clean_column (col_sales Cell df))
           (clean_column (col_spend Cell df)).
End Coercion.

Arguments col_orders {A} _.
Arguments col_sales {A} _.
Arguments col_spend {A} _.
Arguments mkCols {A} _ _ _.

(** Signed decimal literals ([-12], [+3], [2.50]): a part of what pandas reads
    as a number, used for concrete runs. *)
Definition digit_of (c : ascii) : option Z :=
  let n := Z.of_N (N_of_ascii c) in
  if ((48 <=? n) && (n <=? 57))%Z then Some (n - 48)%Z else None.

Fixpoint digits_value (s : string) (acc : Z) : option Z :=
  match s with
  | EmptyString => Some acc
  | String c s' =>
      match digit_of c with
      | Some d => digits_value s' (10 * acc + d)%Z
      | None => None
      end
  end.

Fixpoint split_dot (s : string) : string * option string :=
  match s with
  | EmptyString => (EmptyString, None)
  | String c s' =>
      if Ascii.eqb c "."%char then (EmptyString, Some s')
      else let (a, b) := split_dot s' in (String c a, b)
  end.

Definition parse_unsigned (s : string) : option Q :=
  let (ip, fp) := split_dot s in
  match fp with
  | None =>
      if String.eqb ip EmptyString then None
      else n ← digits_value ip 0; Some (inject_Z n)
  | Some f =>
      if String.eqb ip EmptyString && String.eqb f EmptyString then None
      else n ← digits_value ip 0;
           m ← digits_value f 0;
           Some (inject_Z n + (m # Pos.pow 10 (Pos.of_nat (String.length f))))
  end.

Definition parse_decimal (s : string) : option Q :=
  match s with
  | String c s' =>
      if Ascii.eqb c "-"%char then Qopp <$> parse_unsigned s'
      else if Ascii.eqb c "+"%char then parse_unsigned s'
      else parse_unsigned s
  | EmptyString => None
  end.

(** ** Specification vocabulary *)

(** The decision once both leaders are known. *)
Definition decision (s r : nat) (srow rrow : Row) (thr mo : Q) : nat * Reason :=
  if Nat.eqb s r then (s, reason_best)
  else
    let improvement := improvement_of (calculated_roas srow) (calculated_roas rrow) in
    if Qle_bool (thr / 100) improvement && Qle_bool mo (orders_val rrow)
    then (r, reason_efficient improvement)
    else if Qle_bool (thr / 100) improvement
    then (s, reason_vol_challenger (orders_val rrow))
    else (s, reason_volume).

Definition scenarioSame : DataFrame :=
  [ (4%nat, row_of "mug" "C1" "G1" BROAD 2 20 10);
    (7%nat, row_of "mug" "C2" "G2" EXACT 6 90 30) ].

(** Two rows without spend: the first is the ROAS leader, the second the
    sales leader. *)
Definition scenarioZero : DataFrame :=
  [ (0%nat, row_of "cap" "C1" "G1" BROAD 2 10 0);
    (1%nat, row_of "cap" "C2" "G2" PHRASE 5 100 0) ].

(** The result rows one conflict term contributes. *)
Definition group_results (sales_df : DataFrame) (thr mo : Q) (term : string)
  : list ResultRow :=
  match determine_winner (rows_of_term sales_df term) thr mo with
  | Some (win_idx, reason) =>
      map (result_row term win_idx reason) (rows_of_term sales_df term)
  | None => []
  end.

Definition is_keep (r : ResultRow) : bool :=
  match res_status r with KEEP => true | NEGATE => false end.

Definition count_keep (l : list ResultRow) : nat := length (List.filter is_keep l).

(** Rows of a frame whose term is one of [terms]. *)
Definition rows_of_terms (df : DataFrame) (terms : list string) : DataFrame :=
  List.filter (fun r => existsb (String.eqb (search_term (snd r))) terms) df.

(** A result row annotates a group row: same columns, KEEP with the
    engine's reason on the winning index, NEGATE with the generic reason
    elsewhere. *)
Definition annotates (win : nat) (reason : Reason) (ir : nat * Row) (rr : ResultRow)
  : Prop :=
  res_fields rr = row_fields (snd ir)
  /\ res_status rr = (if Nat.eqb (fst ir) win then KEEP else NEGATE)
  /\ res_reason rr = (if Nat.eqb (fst ir) win then reason else reason_lower).

(** A frame with two conflict terms, a single-row term and a zero-order row. *)
Definition scenarioTable : DataFrame :=
  range_index
    [ row_of "cap" "C1" "G1" BROAD 2 10 0;
      row_of "shoes" "C1" "G1" BROAD 5 100 50;
      row_of "cap" "C2" "G2" PHRASE 5 100 0;
      row_of "shoes" "C2" "G2" PHRASE 3 40 10;
      row_of "shoes" "C3" "G3" EXACT 0 0 7;
      row_of "mug" "C1" "G1" EXACT 4 60 20 ].

(** A frame without conflicts. *)
Definition scenarioClean : DataFrame :=
  range_index
    [ row_of "mug" "C1" "G1" EXACT 4 60 20;
      row_of "mug" "C2" "G2" BROAD 0 0 3;
      row_of "cap" "C1" "G1" BROAD 1 10 2 ].

(** A cleaned column holds, cell by cell, the number read or 0. *)
Definition coerced (parse_number : string -> option Q) (col : list Cell) (out : list Q)
  : Prop :=
  Forall2 (fun c q => match to_numeric_coerce parse_number c with
                      | Some v => q = v
                      | None => q = 0
                      end) col out.


(** ** Text tests and match types *)

(** Python's [needle in s] on [str]. *)
Fixpoint contains (needle s : string) : bool :=
  if String.prefix needle s then true
  else match s with
       | EmptyString => false
       | String _ s' => contains needle s'
       end.

(** [needle] occurs in [s]. *)
Definition occurs (needle s : string) : Prop :=
  exists pre post, s = (pre ++ needle ++ post)%string.

(** The text of each label [normalize_match_type] returns. *)
Definition match_label (m : MatchType) : string :=
  match m with
  | EXACT => "EXACT"
  | PHRASE => "PHRASE"
  | BROAD => "BROAD"
  | AUTO_OTHER => "AUTO/OTHER"
  | UNKNOWN => "UNKNOWN"
  end.

#[global] Instance MatchType_eq_dec : EqDecision MatchType.
Proof. solve_decision. Defined.

Section MatchTypes.
(** Python's [str.upper] (Unicode aware), kept abstract. *)
Variable str_upper : string -> string.

(** [normalize_match_type]; [None] is a missing value ([pd.isna]), the value
    is text otherwise. *)
Definition normalize_match_type (val : option string) : MatchType :=
  match val with
  | None => UNKNOWN
  | Some v =>
      let v := str_upper v in
      if contains "EXACT" v then EXACT
      else if contains "PHRASE" v then PHRASE
      else if contains "BROAD" v then BROAD
      else AUTO_OTHER
  end.
End MatchTypes.

(** Upper-casing restricted to the ASCII letters, used for concrete runs. *)
Definition ascii_upper_char (c : ascii) : ascii :=
  let n := N_of_ascii c in
  if (N.leb 97 n && N.leb n 122)%bool then ascii_of_N (n - 32) else c.

Fixpoint ascii_upper (s : string) : string :=
  match s with
  | EmptyString => EmptyString
  | String c s' => String (ascii_upper_char c) (ascii_upper s')
  end.

(** ** Column mapping *)

(** [next((c for c in df.columns if p(c)), None)] *)
Definition next_col (p : string -> bool) (columns : list string) : option string :=
  List.find p columns.

Record ColMap := mkColMap {
  cm_term : option string;
  cm_camp : option string;
  cm_adg : option string;
  cm_match : option string;
  cm_orders : option string;
  cm_sales : option string;
  cm_spend : option string
}.

(** [col_map], over the stripped header names. *)
Definition col_map_of (columns : list string) : ColMap :=
  mkColMap
    (next_col (fun c => contains "Matched product" c
                        || contains "Customer Search Term" c) columns)
    (next_col (fun c => contains "Campaign Name" c) columns)
    (next_col (fun c => contains "Ad Group Name" c) columns)
    (next_col (fun c => contains "Match Type" c) columns)
    (next_col (fun c => contains "Orders" c || contains "Units" c) columns)
    (next_col (fun c => contains "Sales" c) columns)
    (next_col (fun c => contains "Spend" c) columns).

Definition col_map_values (cm : ColMap) : list (option string) :=
  [cm_term cm; cm_camp cm; cm_adg cm; cm_match cm; cm_orders cm; cm_sales cm;
   cm_spend cm].

(** [any(v is None for v in col_map.values())]: the "Missing columns!" branch. *)
Definition missing_columns (cm : ColMap) : bool :=
  existsb (fun v => match v with None => true | Some _ => false end)
          (col_map_values cm).

(** Some header satisfies [P]. *)
Definition has_header (P : string -> Prop) (columns : list string) : Prop :=
  exists c, In c columns /\ P c.

(** [c] is the first header for which [P] holds. *)
Definition first_header (P : string -> Prop) (columns : list string) (c : string)
  : Prop :=
  exists pre post, columns = pre ++ c :: post /\ P c /\ Forall (fun x => ~ P x) pre.

(** ** Cleaning, aggregation and the ROAS column *)

(** A row of the uploaded frame, seen through the seven mapped columns (taken
    to be seven different columns; the three key columns hold text or are
    missing). *)
Record MappedRow := mkMapped {
  m_term : option string;
  m_camp : option string;
  m_adg : option string;
  m_match : option string;
  m_orders : Cell;
  m_sales : Cell;
  m_spend : Cell
}.

(** The same row after "Clean Numbers" and with its [norm_match]. *)
Record CleanRow := mkClean {
  c_term : option string;
  c_camp : option string;
  c_adg : option string;
  c_norm : MatchType;
  c_orders : Q;
  c_sales : Q;
  c_spend : Q
}.

(** The group key [(term, campaign, ad group, norm_match)]. *)
Definition Key : Type := string * string * string * MatchType.

(** [groupby] drops the rows in which a key column is missing. *)
Definition group_key (r : CleanRow) : option Key :=
  match c_term r, c_camp r, c_adg r with
  | Some t, Some c, Some a => Some (t, c, a, c_norm r)
  | _, _, _ => None
  end.

Definition has_key (r : CleanRow) : bool :=
  match group_key r with Some _ => true | None => false end.

Definition lex (c1 c2 : comparison) : comparison :=
  match c1 with Eq => c2 | _ => c1 end.

(** Order of the group keys: tuples of [str], compared field by field. *)
Definition key_compare (k1 k2 : Key) : comparison :=
  let '(t1, c1, a1, m1) := k1 in
  let '(t2, c2, a2, m2) := k2 in
  lex (String.compare t1 t2)
      (lex (String.compare c1 c2)
           (lex (String.compare a1 a2)
                (String.compare (match_label m1) (match_label m2)))).

Definition key_le (k1 k2 : Key) : Prop := key_compare k1 k2 <> Gt.

#[global] Instance key_le_dec : RelDecision key_le.
Proof.
  intros a b. unfold key_le.
  destruct (key_compare a b); [left | left | right]; congruence.
Defined.

(** ['sum'] of a column, unrounded and unbounded: the sums of the source wrap
    (int64) or round (binary64); only the keys, the order and the labels of
    the aggregated rows are stated from it. *)
Definition Qsum (l : list Q) : Q := fold_right Qplus 0 l.

Definition group_rows (k : Key) (rows : list CleanRow) : list CleanRow :=
  List.filter (fun r => bool_decide (group_key r = Some k)) rows.

(** Keys of the four-column [groupby]: distinct, sorted. *)
Definition agg_keys (rows : list CleanRow) : list Key :=
  merge_sort key_le (remove_dups (omap group_key rows)).

(** [groupby(...).agg('sum')], the renaming of the columns and the
    [calculated_roas] column. *)
Definition aggregate (rows : list CleanRow) : list Row :=
  map (fun k : Key =>
         let '(t, c, a, m) := k in
         let g := group_rows k rows in
         row_of t c a m (Qsum (map c_orders g)) (Qsum (map c_sales g))
                (Qsum (map c_spend g)))
      (agg_keys rows).

Definition row_key (r : Row) : Key :=
  (search_term r, campaign r, ad_group r, norm_match r).

Section Pipeline.
Variable parse_number : string -> option Q.
Variable str_upper : string -> string.

Definition clean_row (r : MappedRow) : CleanRow :=
  mkClean (m_term r) (m_camp r) (m_adg r)
          (normalize_match_type str_upper (m_match r))
          (fillna0 (to_numeric_coerce parse_number (m_orders r)))
          (fillna0 (to_numeric_coerce parse_number (m_sales r)))
          (fillna0 (to_numeric_coerce parse_number (m_spend r))).

(** From the mapped rows to [df_agg]. *)
Definition build_df_agg (raw : list MappedRow) : DataFrame :=
  range_index (aggregate (map clean_row raw)).
End Pipeline.

(** Daily rows of one report. *)
Definition scenarioRaw : list MappedRow :=
  [ mkMapped (Some "shoes") (Some "C2") (Some "G2") (Some "Phrase") (CStr "1") (CStr "15") (CStr "4");
    mkMapped (Some "shoes") (Some "C1") (Some "G1") (Some "broad") (CStr "5") (CStr "100") (CStr "50");
    mkMapped (Some "shoes") (Some "C2") (Some "G2") (Some "PHRASE") (CStr "2") (CStr "25") (CStr "6");
    mkMapped (Some "shoes") None (Some "G3") (Some "exact") (CStr "9") (CStr "90") (CStr "9");
    mkMapped (Some "mug") (Some "C1") (Some "G1") None (CStr "abc") (CNum 3) CNaN ].

(** ** Summary figures of tab 1 *)

Definition is_negate (r : ResultRow) : bool :=
  match res_status r with NEGATE => true | KEEP => false end.

(** ** The arithmetic of the source *)

(** The results of [a - b] and [a / b] on the numbers of the source. *)
Record Arith := mkArith {
  fsub : Q -> Q -> Q;
  fdiv : Q -> Q -> Q
}.

Definition exact_arith : Arith := mkArith Qminus Qdiv.

(** IEEE 754 double precision (53 bits of precision, exponents up to 1024),
    rounding to nearest even, as [SpecFloat] defines it. *)
Definition b64_of_Z (z : Z) : spec_float := binary_normalize 53 1024 z 0 false.

(** The double nearest to a rational whose numerator and denominator are
    doubles themselves (so every stored number, and every integer setting). *)
Definition b64_of_Q (q : Q) : spec_float :=
  SFdiv 53 1024 (b64_of_Z (Qnum q)) (b64_of_Z (Zpos (Qden q))).

(** The rational a finite double is; infinities and NaN are outside the model. *)
Definition Q_of_b64 (x : spec_float) : Q :=
  match x with
  | S754_finite s m e =>
      let n := if s then Zneg m else Zpos m in
      match e with
      | Z0 => inject_Z n
      | Zpos p => inject_Z (n * Z.pow_pos 2 p)
      | Zneg p => n # (Pos.pow 2 p)
      end
  | _ => 0
  end.

Definition b64_sub (a b : Q) : Q :=
  Q_of_b64 (SFsub 53 1024 (b64_of_Q a) (b64_of_Q b)).

Definition b64_div (a b : Q) : Q :=
  Q_of_b64 (SFdiv 53 1024 (b64_of_Q a) (b64_of_Q b)).

Definition binary64_arith : Arith := mkArith b64_sub b64_div.

(** [x['sales_val']/x['spend_val'] if x['spend_val'] > 0 else 0] *)
Definition roas_on (ar : Arith) (sales spend : Q) : Q :=
  if Qlt_bool 0 spend then fdiv ar sales spend else 0.

Definition row_on (ar : Arith) (term camp adg : string) (m : MatchType)
    (orders sales spend : Q) : Row :=
  mkRow term camp adg m orders sales spend (roas_on ar sales spend).

(** ** determine_winner *)

(** What [df.loc[label]] returns: the row (a Series) when one row carries the
    label, a frame of all the rows carrying it when several do. *)
Inductive Located :=
| Series (row : Row)
| Frame (rows : list Row).

(** [df.loc[label]]; [None] stands for KeyError. *)
Definition loc_label (df : DataFrame) (label : nat) : option Located :=
  match List.filter (fun r => Nat.eqb (fst r) label) df with
  | [] => None
  | [ir] => Some (Series (snd ir))
  | rows => Some (Frame (map snd rows))
  end.

(** [x[column]] on the result of [.loc]: a number, or a column of several. *)
Inductive Value :=
| Scalar (q : Q)
| Column (qs : list Q).

Definition field (col : Row -> Q) (x : Located) : Value :=
  match x with
  | Series row => Scalar (col row)
  | Frame rows => Column (map col rows)
  end.

(** An arithmetic expression in one value, element by element on a column. *)
Definition vmap (f : Q -> Q) (v : Value) : Value :=
  match v with
  | Scalar q => Scalar (f q)
  | Column qs => Column (map f qs)
  end.

(** [determine_winner].  A condition on a column of several numbers has no
    truth value: [if] and [and] raise on it ([None]). *)
Definition determine_winner_on (ar : Arith) (group : DataFrame)
    (improvement_thresh min_orders : Q) : option (nat * Reason) :=
  max_sales_idx ← idxmax sales_val group;
  sales_leader ← loc_label group max_sales_idx;
  max_roas_idx ← idxmax calculated_roas group;
  roas_leader ← loc_label group max_roas_idx;
  if Nat.eqb max_sales_idx max_roas_idx then
    Some (max_sales_idx, reason_best)
  else
    let roas_challenger := field calculated_roas roas_leader in
    match field calculated_roas sales_leader with
    | Column _ => None                          (* if roas_sales == 0 *)
    | Scalar roas_sales =>
        let improvement :=
          if Qeq_bool roas_sales 0 then Scalar 999
          else vmap (fun c => fdiv ar (fsub ar c roas_sales) roas_sales)
                    roas_challenger in
        let threshold_decimal := fdiv ar improvement_thresh 100 in
        match improvement with
        | Column _ => None                      (* (improvement >= ...) and ... *)
        | Scalar improvement =>
            if Qle_bool threshold_decimal improvement then
              match field orders_val roas_leader with
              | Column _ => None                (* ... and (orders >= min_orders) *)
              | Scalar orders =>
                  if Qle_bool min_orders orders
                  then Some (max_roas_idx, reason_efficient improvement)
                  else Some (max_sales_idx, reason_vol_challenger orders)
              end
            else Some (max_sales_idx, reason_volume)
        end
    end.

(** The improvement of a single-row challenger over a single-row sales leader. *)
Definition improvement_on (ar : Arith) (roas_sales roas_challenger : Q) : Q :=
  if Qeq_bool roas_sales 0 then 999
  else fdiv ar (fsub ar roas_challenger roas_sales) roas_sales.

(** The decision once both leaders are known to be single rows. *)
Definition decision_on (ar : Arith) (s r : nat) (srow rrow : Row) (thr mo : Q)
  : nat * Reason :=
  if Nat.eqb s r then (s, reason_best)
  else
    let improvement :=
      improvement_on ar (calculated_roas srow) (calculated_roas rrow) in
    if Qle_bool (fdiv ar thr 100) improvement then
      if Qle_bool mo (orders_val rrow)
      then (r, reason_efficient improvement)
      else (s, reason_vol_challenger (orders_val rrow))
    else (s, reason_volume).

(** ** The cannibalization tab *)

(** The result rows one conflict term contributes. *)
Definition group_results_on (ar : Arith) (sales_df : DataFrame) (thr mo : Q)
    (term : string) : list ResultRow :=
  match determine_winner_on ar (rows_of_term sales_df term) thr mo with
  | Some (win_idx, reason) =>
      map (result_row term win_idx reason) (rows_of_term sales_df term)
  | None => []
  end.

(** [for term in cannibal_terms: ...], with [results] as the state; [None]
    when [determine_winner] raises. *)
Fixpoint results_loop_on (ar : Arith) (sales_df : DataFrame)
    (roas_threshold min_orders_for_roas : Q) (terms : list string)
    (results : list ResultRow) : option (list ResultRow) :=
  match terms with
  | [] => Some results
  | term :: rest =>
      let subset := rows_of_term sales_df term in
      match determine_winner_on ar subset roas_threshold min_orders_for_roas with
      | None => None
      | Some (win_idx, reason) =>
          results_loop_on ar sales_df roas_threshold min_orders_for_roas rest
            (results ++ map (result_row term win_idx reason) subset)
      end
  end.

Definition tab1_on (ar : Arith) (df_agg : DataFrame)
    (roas_threshold min_orders_for_roas : Q) : Tab1View :=
  let sales_df := sales_df_of df_agg in
  let cannibal_terms := cannibal_terms_of sales_df in
  match cannibal_terms with
  | [] => StSuccess "✅ No cannibalization found! Your account structure is clean."
  | _ =>
      match results_loop_on ar sales_df roas_threshold min_orders_for_roas
                            cannibal_terms [] with
      | Some results => ActionPlan results
      | None => StError
      end
  end.

(** The values [st.slider] can return for the threshold: 30, 40, ..., 200. *)
Definition roas_threshold_values : list Q :=
  map (fun k => inject_Z (30 + 10 * Z.of_nat k)) (seq 0 18).

(** Some EXACT row of the frame has the lower-cased term of [r]. *)
Definition exact_twin (str_lower : string -> string) (df : DataFrame)
    (r : nat * Row) : bool :=
  existsb (fun e => MatchType_eqb (norm_match (snd e)) EXACT
                    && String.eqb (str_lower (search_term (snd e)))
                                  (str_lower (search_term (snd r)))) df.

(** A sales leader of ROAS 3 and a challenger of ROAS 39/10, which is not a
    double. *)
Definition scenarioRounding (ar : Arith) : DataFrame :=
  [ (0%nat, row_on ar "lamp" "C1" "G1" BROAD 5 300 100);
    (1%nat, row_on ar "lamp" "C2" "G2" PHRASE 3 39 10) ].

(** * Properties *)

(** ** Comparisons *)

Lemma Qlt_bool_iff x y : Qlt_bool x y = true <-> x < y.
Proof.
  unfold Qlt_bool. rewrite negb_true_iff.
  split; intros H.
  - apply Qnot_le_lt. intros Hle. apply Qle_bool_iff in Hle. congruence.
  - destruct (Qle_bool y x) eqn:E; [|reflexivity].
    apply Qle_bool_iff in E. exfalso. exact (Qlt_not_le _ _ H E).
Qed.

Lemma Qle_bool_false_iff x y : Qle_bool x y = false <-> ~ x <= y.
Proof.
  rewrite <- Qle_bool_iff. destruct (Qle_bool x y); split; intros; congruence.
Qed.

Lemma MatchType_eqb_eq a b : MatchType_eqb a b = true <-> a = b.
Proof. destruct a, b; simpl; split; intros; congruence. Qed.



(** ** Leaders of a group *)

Lemma idxmax_from_in col best rest :
  In (idxmax_from col best rest) (fst best :: labels rest).
Proof.
  revert best. induction rest as [|r rest IH]; intros best; simpl.
  - left; reflexivity.
  - destruct (Qlt_bool _ _).
    + right. apply (IH r).
    + destruct (IH best) as [E|E]; [left; exact E | right; right; exact E].
Qed.

Lemma idxmax_in col df i : idxmax col df = Some i -> In i (labels df).
Proof.
  destruct df as [|r rest]; simpl; [discriminate|].
  intros [= <-]. apply idxmax_from_in.
Qed.

Lemma idxmax_nonempty col df : df <> [] -> exists i, idxmax col df = Some i.
Proof. destruct df; [congruence|]. intros _. eexists; reflexivity. Qed.

Lemma loc_in df i row : loc df i = Some row -> In (i, row) df.
Proof.
  unfold loc. destruct (List.find _ df) as [[j r]|] eqn:E; simpl; [|discriminate].
  intros [= <-]. apply find_some in E. destruct E as [Hin Hj].
  simpl in Hj. apply Nat.eqb_eq in Hj. subst j. exact Hin.
Qed.

Lemma loc_defined df i : In i (labels df) -> exists row, loc df i = Some row.
Proof.
  unfold loc, labels. induction df as [|[j r] df IH]; simpl; [tauto|].
  intros [E|Hin].
  - subst j. rewrite Nat.eqb_refl. simpl. eauto.
  - destruct (Nat.eqb j i); simpl; [eauto | auto].
Qed.

Lemma determine_winner_decision group thr mo s r srow rrow :
  idxmax sales_val group = Some s -> loc group s = Some srow ->
  idxmax calculated_roas group = Some r -> loc group r = Some rrow ->
  determine_winner group thr mo = Some (decision s r srow rrow thr mo).
Proof.
  intros Hs Hsr Hr Hrr. unfold determine_winner, decision.
  rewrite Hs. cbn [mbind option_bind]. rewrite Hsr. cbn [mbind option_bind].
  rewrite Hr. cbn [mbind option_bind]. rewrite Hrr. cbn [mbind option_bind].
  destruct (Nat.eqb s r); [reflexivity|].
  cbv zeta.
  destruct (Qle_bool (thr / 100) _ && _); [reflexivity|].
  destruct (Qle_bool (thr / 100) _); reflexivity.
Qed.

Lemma leaders_exist group :
  group <> [] ->
  exists s r srow rrow,
    idxmax sales_val group = Some s /\ loc group s = Some srow /\
    idxmax calculated_roas group = Some r /\ loc group r = Some rrow.
Proof.
  intros Hne.
  destruct (idxmax_nonempty sales_val group Hne) as [s Hs].
  destruct (idxmax_nonempty calculated_roas group Hne) as [r Hr].
  destruct (loc_defined group s (idxmax_in _ _ _ Hs)) as [srow Hsr].
  destruct (loc_defined group r (idxmax_in _ _ _ Hr)) as [rrow Hrr].
  exists s, r, srow, rrow. auto.
Qed.

Lemma decision_label s r srow rrow thr mo :
  fst (decision s r srow rrow thr mo) = s \/ fst (decision s r srow rrow thr mo) = r.
Proof.
  unfold decision. destruct (Nat.eqb s r); [left; reflexivity|].
  cbv zeta. destruct (_ && _); [right; reflexivity|].
  destruct (Qle_bool _ _); left; reflexivity.
Qed.

(** On a non-empty group the engine returns, and the winner is a label of the group. *)
Lemma determine_winner_total group thr mo :
  group <> [] ->
  exists win reason, determine_winner group thr mo = Some (win, reason)
                     /\ In win (labels group).
Proof.
  intros Hne.
  destruct (leaders_exist group Hne) as (s & r & srow & rrow & Hs & Hsr & Hr & Hrr).
  rewrite (determine_winner_decision _ thr mo _ _ _ _ Hs Hsr Hr Hrr).
  destruct (decision s r srow rrow thr mo) as [win reason] eqn:E.
  exists win, reason. split; [reflexivity|].
  pose proof (decision_label s r srow rrow thr mo) as Hl. rewrite E in Hl. simpl in Hl.
  destruct Hl as [-> | ->]; eauto using idxmax_in.
Qed.

(** ** Winner decision *)

(** C2: when the row of maximum sales and the row of maximum ROAS carry the
    same index, determine_winner returns that index with "Best Sales & ROAS",
    whatever the threshold and the minimum order count are. *)
Theorem determine_winner_same_leader group s :
  idxmax sales_val group = Some s ->
  idxmax calculated_roas group = Some s ->
  forall thr mo, determine_winner group thr mo = Some (s, reason_best).
Proof.
  intros Hs Hr thr mo.
  destruct (loc_defined group s (idxmax_in _ _ _ Hs)) as [row Hrow].
  rewrite (determine_winner_decision _ thr mo _ _ _ _ Hs Hrow Hr Hrow).
  unfold decision. rewrite Nat.eqb_refl. reflexivity.
Qed.

Lemma determine_winner_same_leader_witness :
  determine_winner scenarioSame 30 1 = Some (7%nat, reason_best)
  /\ determine_winner scenarioSame 200 50 = Some (7%nat, reason_best).
Proof.
  split; apply (determine_winner_same_leader scenarioSame 7%nat); reflexivity.
Defined.



(** ** Harvest filter *)

Lemma filter_filter_andb {A} (p q : A -> bool) (l : list A) :
  List.filter p (List.filter q l) = List.filter (fun x => q x && p x) l.
Proof.
  induction l as [|x l IH]; simpl; [reflexivity|].
  destruct (q x); simpl; [destruct (p x)|]; rewrite ?IH; reflexivity.
Qed.

Lemma exact_terms_spec str_lower df t :
  t ∈ exact_terms str_lower df <->
  exists e, In e df /\ norm_match (snd e) = EXACT
            /\ str_lower (search_term (snd e)) = t.
Proof.
  unfold exact_terms. rewrite elem_of_list_to_set, list_elem_of_In, in_map_iff.
  split.
  - intros (e & Ht & He). apply filter_In in He. destruct He as [Hin Hm].
    apply MatchType_eqb_eq in Hm. eauto.
  - intros (e & Hin & Hm & Ht). exists e. split; [exact Ht|].
    apply filter_In. split; [exact Hin|]. apply MatchType_eqb_eq. exact Hm.
Qed.

(** C10: the exact set is built from every EXACT row of the aggregated frame,
    whatever its orders; so a row whose lower-cased term equals that of an
    EXACT row never reaches the harvest output, also when that EXACT row has 0
    orders and the row itself is a candidate. *)
Theorem new_opps_excludes_any_exact (str_lower : string -> string) (df : DataFrame)
    (e r : nat * Row) :
  In e df -> norm_match (snd e) = EXACT ->
  str_lower (search_term (snd r)) = str_lower (search_term (snd e)) ->
  str_lower (search_term (snd e)) ∈ exact_terms str_lower df
  /\ ~ In r (new_opps str_lower df).
Proof.
  intros He Hm Heq.
  assert (Hset : str_lower (search_term (snd e)) ∈ exact_terms str_lower df).
  { apply exact_terms_spec. exists e. auto. }
  split; [exact Hset|].
  unfold new_opps. rewrite filter_In, negb_true_iff, bool_decide_eq_false.
  rewrite Heq. tauto.
Qed.

(** The EXACT row of scenario C has 0 orders; the BROAD row with 1 order and
    the same term up to case is a candidate and is excluded. *)
Lemma new_opps_excludes_any_exact_witness :
  orders_val (row_of "blue shoes" "C1" "G1" EXACT 0 0 4) == 0
  /\ In (1%nat, row_of "Blue Shoes" "C2" "G2" BROAD 1 20 5)
        (candidates scenarioC)
  /\ ~ In (1%nat, row_of "Blue Shoes" "C2" "G2" BROAD 1 20 5)
          (new_opps ascii_lower scenarioC).
Proof.
  split; [reflexivity|]. split; [left; reflexivity|].
  apply (new_opps_excludes_any_exact ascii_lower scenarioC
           (0%nat, row_of "blue shoes" "C1" "G1" EXACT 0 0 4)
           (1%nat, row_of "Blue Shoes" "C2" "G2" BROAD 1 20 5)).
  - left; reflexivity.
  - reflexivity.
  - reflexivity.
Defined.

(** ** Numeric coercion *)

Lemma clean_column_coerced parse_number col :
  coerced parse_number col (clean_column parse_number col).
Proof.
  unfold coerced, clean_column. induction col as [|c col IH]; simpl; constructor.
  - destruct (to_numeric_coerce parse_number c); reflexivity.
  - exact IH.
Qed.

Lemma clean_column_nonneg parse_number col :
  (forall c v, In c col -> to_numeric_coerce parse_number c = Some v -> 0 <= v) ->
  Forall (fun q => 0 <= q) (clean_column parse_number col).
Proof.
  unfold clean_column. induction col as [|c col IH]; intros Hc; simpl; constructor.
  - destruct (to_numeric_coerce parse_number c) as [v|] eqn:E; simpl.
    + apply (Hc c v); [left; reflexivity | exact E].
    + apply Qle_refl.
  - apply IH. intros c' v Hin. apply Hc. right. exact Hin.
Qed.

(** C8, as the code has it: the coercion is total; in each of the three
    columns a cell that is missing or not read as a number becomes 0 and every
    other cell keeps the number it denotes, with no check of sign or of
    integrality; a cleaned column is non-negative when the numbers read from
    it are. *)
Theorem clean_numbers_coerced (parse_number : string -> option Q)
    (df : NumericColumns Cell) :
  coerced parse_number (col_orders df) (col_orders (clean_numbers parse_number df))
  /\ coerced parse_number (col_sales df) (col_sales (clean_numbers parse_number df))
  /\ coerced parse_number (col_spend df) (col_spend (clean_numbers parse_number df))
  /\ ((forall c v, In c (col_orders df ++ col_sales df ++ col_spend df) ->
                   to_numeric_coerce parse_number c = Some v -> 0 <= v) ->
      Forall (fun q => 0 <= q) (col_orders (clean_numbers parse_number df))
      /\ Forall (fun q => 0 <= q) (col_sales (clean_numbers parse_number df))
      /\ Forall (fun q => 0 <= q) (col_spend (clean_numbers parse_number df))).
Proof.
  split; [apply clean_column_coerced|]. split; [apply clean_column_coerced|].
  split; [apply clean_column_coerced|].
  intros Hc. simpl.
  repeat split; apply clean_column_nonneg; intros c v Hin; apply Hc;
    rewrite !in_app_iff; tauto.
Qed.

Lemma clean_numbers_coerced_witness :
  clean_numbers parse_decimal
    (mkCols [CStr "3"; CStr "abc"] [CNum 12.5; CNaN] [CStr "+4.25"; CStr ""])
  = mkCols [3; 0] [12.5; 0] [4.25; 0]
  /\ Forall (fun q => 0 <= q)
        (col_orders (clean_numbers parse_decimal
           (mkCols [CStr "3"; CStr "abc"] [CNum 12.5; CNaN] [CStr "+4.25"; CStr ""]))).
Proof.
  split; [vm_compute; reflexivity|].
  apply (clean_numbers_coerced parse_decimal
           (mkCols [CStr "3"; CStr "abc"] [CNum 12.5; CNaN] [CStr "+4.25"; CStr ""])).
  intros c v Hin.
  repeat (destruct Hin as [<- | Hin]; [vm_compute; intros [= <-]; discriminate|]);
    destruct Hin.
Defined.

(** C8 as stated fails: a negative cell and a fractional orders cell pass
    through the coercion unchanged. *)
Lemma clean_numbers_keeps_negative :
  let df := mkCols [CStr "-5"; CStr "2.5"; CStr "abc"] [CNum (-3); CNaN; CNum 7]
                   [CStr "-0.5"; CStr "1"; CStr "1"] in
  let out := clean_numbers parse_decimal df in
  col_orders out = [-5; 2.5; 0]
  /\ col_sales out = [-3; 0; 7]
  /\ ~ Forall (fun q => 0 <= q) (col_orders out)
  /\ ~ Forall (fun q => 0 <= q) (col_sales out)
  /\ ~ Forall (fun q => 0 <= q) (col_spend out)
  /\ ~ Forall (fun q => exists z, q == inject_Z z) (col_orders out).
Proof.
  cbv zeta.
  set (out := clean_numbers parse_decimal _).
  assert (Eo : col_orders out = [-5; 2.5; 0]) by (vm_compute; reflexivity).
  assert (Es : col_sales out = [-3; 0; 7]) by (vm_compute; reflexivity).
  assert (Ep : col_spend out = [-0.5; 1; 1]) by (vm_compute; reflexivity).
  rewrite Eo, Es, Ep. clear out Eo Es Ep.
  split; [reflexivity|]. split; [reflexivity|].
  split; [|split; [|split]].
  - intros H. inversion H as [|? ? H0 _]. apply H0. reflexivity.
  - intros H. inversion H as [|? ? H0 _]. apply H0. reflexivity.
  - intros H. inversion H as [|? ? H0 _]. apply H0. reflexivity.
  - intros H. inversion H as [|? ? _ H1]. inversion H1 as [|? ? [z Hz] _].
    unfold Qeq in Hz. simpl in Hz. lia.
Qed.

(** ** Cannibalization orchestrator *)

Lemma map_fst_filter_snd {A B} (f : A -> B) (p : B -> bool) (l : list A) :
  map fst (List.filter (fun x => p (snd x)) (map (fun t => (t, f t)) l))
  = List.filter (fun t => p (f t)) l.
Proof.
  induction l as [|a l IH]; simpl; [reflexivity|].
  destruct (p (f a)); simpl; rewrite IH; reflexivity.
Qed.

Lemma cannibal_terms_filter sdf :
  cannibal_terms_of sdf
  = List.filter (fun t => Nat.ltb 1 (length (rows_of_term sdf t))) (group_keys sdf).
Proof.
  unfold cannibal_terms_of, groupby_size.
  apply (map_fst_filter_snd (fun t => length (rows_of_term sdf t)) (Nat.ltb 1)).
Qed.

Lemma group_keys_in df t :
  In t (group_keys df) <-> In t (map (fun r => search_term (snd r)) df).
Proof.
  unfold group_keys. rewrite <- !list_elem_of_In.
  rewrite merge_sort_Permutation. apply elem_of_remove_dups.
Qed.

Lemma group_keys_NoDup df : List.NoDup (group_keys df).
Proof.
  unfold group_keys.
  eapply Permutation_NoDup; [symmetry; apply merge_sort_Permutation|].
  apply NoDup_ListNoDup, NoDup_remove_dups.
Qed.

Lemma rows_of_term_in df t ir :
  In ir (rows_of_term df t) <-> In ir df /\ search_term (snd ir) = t.
Proof. unfold rows_of_term. rewrite filter_In, String.eqb_eq. reflexivity. Qed.

Lemma sales_df_in df ir :
  In ir (sales_df_of df) <-> In ir df /\ 0 < orders_val (snd ir).
Proof. unfold sales_df_of. rewrite filter_In, Qlt_bool_iff. reflexivity. Qed.

Lemma cannibal_terms_spec sdf t :
  In t (cannibal_terms_of sdf) <-> (1 < length (rows_of_term sdf t))%nat.
Proof.
  rewrite cannibal_terms_filter, filter_In, Nat.ltb_lt. split; [tauto|].
  intros Hlen. split; [|exact Hlen].
  apply group_keys_in.
  destruct (rows_of_term sdf t) as [|ir rest] eqn:E; [simpl in Hlen; lia|].
  assert (Hin : In ir (rows_of_term sdf t)) by (rewrite E; left; reflexivity).
  apply rows_of_term_in in Hin. destruct Hin as [Hin <-].
  apply in_map_iff. exists ir. auto.
Qed.

Lemma cannibal_terms_NoDup sdf : List.NoDup (cannibal_terms_of sdf).
Proof. rewrite cannibal_terms_filter. apply List.NoDup_filter, group_keys_NoDup. Qed.

Lemma cannibal_group_nonempty sdf t :
  In t (cannibal_terms_of sdf) -> rows_of_term sdf t <> [].
Proof.
  intros Hin E. apply cannibal_terms_spec in Hin. rewrite E in Hin. simpl in Hin. lia.
Qed.

(** The loop appends, term after term, the rows of that term's group and
    records one engine call per term. *)
Lemma results_loop_spec sdf thr mo terms st :
  (forall t, In t terms -> rows_of_term sdf t <> []) ->
  results_loop sdf thr mo terms st
  = Some (mkLoop (results st ++ flat_map (group_results sdf thr mo) terms)
                 (engine_calls st ++ map (rows_of_term sdf) terms)).
Proof.
  revert st. induction terms as [|t terms IH]; intros st Hne; simpl.
  - rewrite !app_nil_r. destruct st; reflexivity.
  - destruct (determine_winner_total (rows_of_term sdf t) thr mo)
      as (win & reason & Hwin & _); [apply Hne; left; reflexivity|].
    unfold group_results at 1. rewrite Hwin.
    rewrite IH by (intros t' Ht'; apply Hne; right; exact Ht').
    simpl. rewrite <- !app_assoc. reflexivity.
Qed.

Lemma tab1_unfold df thr mo :
  let sdf := sales_df_of df in
  let terms := cannibal_terms_of sdf in
  tab1 df thr mo
  = match terms with
    | [] => mkTab1 (StSuccess "✅ No cannibalization found! Your account structure is clean.") []
    | _ => mkTab1 (ActionPlan (flat_map (group_results sdf thr mo) terms))
                  (map (rows_of_term sdf) terms)
    end.
Proof.
  cbv zeta. unfold tab1.
  destruct (cannibal_terms_of (sales_df_of df)) as [|t terms] eqn:E; [reflexivity|].
  rewrite <- E. rewrite results_loop_spec by apply cannibal_group_nonempty.
  reflexivity.
Qed.

(** *** Index labels *)

Lemma range_index_labels rows : labels (range_index rows) = seq 0 (length rows).
Proof.
  unfold labels, range_index. generalize 0%nat.
  induction rows as [|r rows IH]; intros n; simpl; [reflexivity|].
  rewrite IH. reflexivity.
Qed.

Lemma range_index_NoDup rows : List.NoDup (labels (range_index rows)).
Proof. rewrite range_index_labels. apply seq_NoDup. Qed.

Lemma labels_filter_NoDup (p : nat * Row -> bool) df :
  List.NoDup (labels df) -> List.NoDup (labels (List.filter p df)).
Proof.
  unfold labels. induction df as [|ir df IH]; simpl; intros Hnd; [constructor|].
  inversion Hnd as [|? ? Hnotin Hnd']; subst.
  destruct (p ir); simpl; [|auto].
  constructor; [|auto].
  intros Hin. apply Hnotin. apply in_map_iff in Hin.
  destruct Hin as (x & Hx & Hin). apply filter_In in Hin.
  apply in_map_iff. exists x. tauto.
Qed.

Lemma label_count_one df w :
  List.NoDup (labels df) -> In w (labels df) ->
  length (List.filter (fun ir => Nat.eqb (fst ir) w) df) = 1%nat.
Proof.
  unfold labels. induction df as [|ir df IH]; simpl; intros Hnd Hin; [tauto|].
  inversion Hnd as [|? ? Hnotin Hnd']; subst.
  destruct (Nat.eqb (fst ir) w) eqn:E.
  - apply Nat.eqb_eq in E. subst w. simpl. f_equal.
    destruct (List.filter _ df) as [|x rest] eqn:F; [reflexivity|].
    exfalso. apply Hnotin.
    assert (Hx : In x (List.filter (fun ir0 => Nat.eqb (fst ir0) (fst ir)) df))
      by (rewrite F; left; reflexivity).
    apply filter_In in Hx. destruct Hx as [Hx Hl]. apply Nat.eqb_eq in Hl.
    rewrite <- Hl. apply in_map. exact Hx.
  - apply Nat.eqb_neq in E. destruct Hin as [Hin|Hin]; [contradiction|]. auto.
Qed.

Lemma count_keep_map term win reason (subset : DataFrame) :
  count_keep (map (result_row term win reason) subset)
  = length (List.filter (fun ir => Nat.eqb (fst ir) win) subset).
Proof.
  unfold count_keep. induction subset as [|ir subset IH]; simpl; [reflexivity|].
  unfold is_keep at 1. simpl. destruct (Nat.eqb (fst ir) win); simpl; rewrite IH;
    reflexivity.
Qed.

(** *** Every conflict row once *)

Lemma filter_orb_disjoint {A} (p q : A -> bool) (l : list A) :
  (forall x, In x l -> p x = true -> q x = false) ->
  Permutation (List.filter (fun x => p x || q x) l) (List.filter p l ++ List.filter q l).
Proof.
  induction l as [|x l IH]; intros Hd; simpl; [constructor|].
  assert (IH' := IH (fun y Hy => Hd y (or_intror Hy))).
  destruct (p x) eqn:Ep; simpl.
  - rewrite (Hd x (or_introl eq_refl) Ep). constructor. exact IH'.
  - destruct (q x); [|exact IH'].
    eapply Permutation_trans; [constructor; exact IH'|]. apply Permutation_middle.
Qed.

Lemma flat_map_rows_of_terms df terms :
  List.NoDup terms ->
  Permutation (flat_map (rows_of_term df) terms) (rows_of_terms df terms).
Proof.
  unfold rows_of_terms.
  induction terms as [|t terms IH]; intros Hnd; simpl.
  - induction df; simpl; [constructor | assumption].
  - inversion Hnd as [|? ? Hnotin Hnd']; subst.
    eapply Permutation_trans;
      [apply Permutation_app_head, IH, Hnd' | symmetry; apply filter_orb_disjoint].
    intros x _ Hx. apply String.eqb_eq in Hx.
    destruct (existsb _ terms) eqn:Ex; [|reflexivity].
    apply existsb_exists in Ex. destruct Ex as (t' & Ht' & Heq).
    apply String.eqb_eq in Heq. exfalso. apply Hnotin. congruence.
Qed.

Lemma result_rows_annotate t win reason (subset : DataFrame) :
  (forall ir, In ir subset -> search_term (snd ir) = t) ->
  Forall2 (annotates win reason) subset (map (result_row t win reason) subset).
Proof.
  induction subset as [|ir subset IH]; intros Ht; simpl; constructor.
  - unfold annotates, result_row, res_fields, row_fields. simpl.
    rewrite (Ht ir (or_introl eq_refl)). auto.
  - apply IH. intros x Hx. apply Ht. right. exact Hx.
Qed.

Lemma group_results_fields sdf thr mo terms :
  (forall t, In t terms -> rows_of_term sdf t <> []) ->
  map res_fields (flat_map (group_results sdf thr mo) terms)
  = map (fun ir => row_fields (snd ir)) (flat_map (rows_of_term sdf) terms).
Proof.
  induction terms as [|t terms IH]; intros Hne; simpl; [reflexivity|].
  rewrite !map_app, IH by (intros t' Ht'; apply Hne; right; exact Ht').
  f_equal. unfold group_results.
  destruct (determine_winner_total (rows_of_term sdf t) thr mo)
    as (win & reason & Hwin & _); [apply Hne; left; reflexivity|].
  rewrite Hwin, map_map. apply map_ext_in. intros ir Hir.
  apply rows_of_term_in in Hir. destruct Hir as [_ <-]. reflexivity.
Qed.

(** C5: on a frame with unique index labels (as the RangeIndex of df_agg
    gives) that has conflict terms, the annotated table is the concatenation,
    over the conflict terms, of each group's rows in order; in each group the
    row whose index determine_winner returned, and only it, has KEEP with the
    engine's reason, the other rows have NEGATE; and the table holds every row
    of every conflict group exactly once. *)
Theorem tab1_one_keep_per_group df thr mo :
  List.NoDup (labels df) ->
  cannibal_terms_of (sales_df_of df) <> [] ->
  exists res,
    view (tab1 df thr mo) = ActionPlan res
    /\ res = flat_map (group_results (sales_df_of df) thr mo)
                      (cannibal_terms_of (sales_df_of df))
    /\ (forall t, In t (cannibal_terms_of (sales_df_of df)) ->
          exists win reason,
            determine_winner (rows_of_term (sales_df_of df) t) thr mo
              = Some (win, reason)
            /\ Forall2 (annotates win reason)
                       (rows_of_term (sales_df_of df) t)
                       (group_results (sales_df_of df) thr mo t)
            /\ length (List.filter (fun ir => Nat.eqb (fst ir) win)
                                   (rows_of_term (sales_df_of df) t)) = 1%nat
            /\ count_keep (group_results (sales_df_of df) thr mo t) = 1%nat)
    /\ Permutation (map res_fields res)
         (map (fun ir => row_fields (snd ir))
              (rows_of_terms (sales_df_of df) (cannibal_terms_of (sales_df_of df)))).
Proof.
  intros Hnd Hterms.
  set (sdf := sales_df_of df) in *. set (terms := cannibal_terms_of sdf) in *.
  exists (flat_map (group_results sdf thr mo) terms).
  split; [|split; [reflexivity|split]].
  - pose proof (tab1_unfold df thr mo) as E. cbv zeta in E. rewrite E.
    fold sdf terms. destruct terms; [congruence | reflexivity].
  - intros t Ht.
    pose proof (cannibal_group_nonempty sdf t Ht) as Hne.
    destruct (determine_winner_total (rows_of_term sdf t) thr mo Hne)
      as (win & reason & Hwin & Hlab).
    exists win, reason. split; [exact Hwin|].
    assert (Hone : length (List.filter (fun ir => Nat.eqb (fst ir) win)
                                       (rows_of_term sdf t)) = 1%nat).
    { apply label_count_one; [|exact Hlab].
      unfold rows_of_term, sdf, sales_df_of. do 2 apply labels_filter_NoDup.
      exact Hnd. }
    unfold group_results. rewrite Hwin. split; [|split; [exact Hone|]].
    + apply result_rows_annotate. intros ir Hir.
      apply rows_of_term_in in Hir. tauto.
    + rewrite count_keep_map. exact Hone.
  - rewrite group_results_fields by apply cannibal_group_nonempty.
    apply Permutation_map, flat_map_rows_of_terms, cannibal_terms_NoDup.
Qed.

Lemma tab1_one_keep_per_group_witness :
  exists res,
    view (tab1 scenarioTable 100 2) = ActionPlan res
    /\ count_keep (group_results (sales_df_of scenarioTable) 100 2 "cap") = 1%nat
    /\ count_keep (group_results (sales_df_of scenarioTable) 100 2 "shoes") = 1%nat
    /\ length res = 4%nat.
Proof.
  assert (Hterms : cannibal_terms_of (sales_df_of scenarioTable) = ["cap"; "shoes"])
    by (vm_compute; reflexivity).
  destruct (tab1_one_keep_per_group scenarioTable 100 2) as (res & Hview & Hres & Hgrp & _).
  - apply range_index_NoDup.
  - rewrite Hterms. discriminate.
  - exists res. split; [exact Hview|].
    rewrite Hterms in Hgrp.
    destruct (Hgrp "cap" (or_introl eq_refl)) as (? & ? & _ & _ & _ & Hc).
    destruct (Hgrp "shoes" (or_intror (or_introl eq_refl))) as (? & ? & _ & _ & _ & Hs).
    split; [exact Hc|]. split; [exact Hs|].
    rewrite Hres. vm_compute. reflexivity.
Defined.

(** * Further properties of the winner decision *)

Lemma idxmax_from_first_max col rest : forall best,
  exists pre row post,
    best :: rest = pre ++ (idxmax_from col best rest, row) :: post
    /\ Forall (fun x => col (snd x) < col row) pre
    /\ Forall (fun x => col (snd x) <= col row) post
    /\ col (snd best) <= col row.
Proof.
  induction rest as [|x rest IH]; intros [i0 r0]; simpl.
  - exists [], r0, []. repeat split; try constructor. apply Qle_refl.
  - destruct (Qlt_bool (col r0) (col (snd x))) eqn:E.
    + apply Qlt_bool_iff in E.
      destruct (IH x) as (pre & row & post & Heq & Hpre & Hpost & Hx).
      exists ((i0, r0) :: pre), row, post. rewrite Heq.
      split; [reflexivity|].
      assert (Hlt : col r0 < col row) by (eapply Qlt_le_trans; eassumption).
      split; [constructor; [exact Hlt | exact Hpre]|].
      split; [exact Hpost | apply Qlt_le_weak; exact Hlt].
    + assert (Hle : col (snd x) <= col r0).
      { apply Qnot_lt_le. intros Hlt. apply Qlt_bool_iff in Hlt. congruence. }
      destruct (IH (i0, r0)) as (pre & row & post & Heq & Hpre & Hpost & Hb).
      simpl in Hb.
      destruct pre as [|p pre]; simpl in Heq.
      * injection Heq as Hi Hr Hrest. subst post. rewrite <- Hr in *.
        exists [], r0, (x :: rest). rewrite <- Hi.
        repeat split; try constructor; assumption.
      * injection Heq as Hp Hrest. subst p.
        inversion Hpre as [|? ? Hp0 Hpre']; subst. simpl in Hp0.
        exists ((i0, r0) :: x :: pre), row, post.
        split; [simpl; do 2 f_equal; exact Hrest|].
        split; [|split; [exact Hpost | exact Hb]].
        constructor; [exact Hp0|]. constructor; [|exact Hpre'].
        eapply Qle_lt_trans; eassumption.
Qed.

(** X1: the label [idxmax] returns is that of the first row holding the
    maximum of the column: every earlier row is strictly smaller, every later
    row is at most equal. *)
Theorem idxmax_first_max col (df : DataFrame) i :
  idxmax col df = Some i ->
  exists pre row post,
    df = pre ++ (i, row) :: post
    /\ Forall (fun x => col (snd x) < col row) pre
    /\ Forall (fun x => col (snd x) <= col row) post.
Proof.
  destruct df as [|best rest]; simpl; [discriminate|]. intros [= <-].
  destruct (idxmax_from_first_max col rest best) as (pre & row & post & H1 & H2 & H3 & _).
  exists pre, row, post. auto.
Qed.

Lemma idxmax_first_max_witness :
  exists pre row post,
    [ (3%nat, row_of "t" "C1" "G1" BROAD 1 10 5);
      (5%nat, row_of "t" "C2" "G2" BROAD 1 40 5);
      (8%nat, row_of "t" "C3" "G3" BROAD 1 40 5) ] = pre ++ (5%nat, row) :: post
    /\ Forall (fun x => sales_val (snd x) < sales_val row) pre
    /\ Forall (fun x => sales_val (snd x) <= sales_val row) post.
Proof.
  apply (idxmax_first_max sales_val
           [ (3%nat, row_of "t" "C1" "G1" BROAD 1 10 5);
             (5%nat, row_of "t" "C2" "G2" BROAD 1 40 5);
             (8%nat, row_of "t" "C3" "G3" BROAD 1 40 5) ] 5%nat).
  reflexivity.
Defined.



(** X4: monotonicity in min_orders.  When the ROAS leader wins with a given
    minimum order count, the call with any smaller minimum returns the same
    result. *)
Theorem determine_winner_min_orders_monotone group thr (mo mo' : Q) r reason :
  mo' <= mo ->
  idxmax calculated_roas group = Some r ->
  determine_winner group thr mo = Some (r, reason) ->
  determine_winner group thr mo' = Some (r, reason).
Proof.
  intros Hmo Hr Hwin.
  destruct group as [|g0 rest] eqn:Eg; [discriminate Hr|]. rewrite <- Eg in *.
  assert (Hne : group <> []) by (rewrite Eg; discriminate).
  destruct (leaders_exist group Hne) as (s & r' & srow & rrow & Hs & Hsr & Hr' & Hrr).
  assert (r' = r) by congruence. subst r'.
  rewrite (determine_winner_decision _ thr mo _ _ _ _ Hs Hsr Hr Hrr) in Hwin.
  rewrite (determine_winner_decision _ thr mo' _ _ _ _ Hs Hsr Hr Hrr).
  injection Hwin as Hwin. rewrite <- Hwin. f_equal.
  revert Hwin. unfold decision.
  destruct (Nat.eqb s r) eqn:Esr; [reflexivity|]. cbv zeta.
  apply Nat.eqb_neq in Esr.
  destruct (Qle_bool (thr / 100) _) eqn:E1; simpl.
  - destruct (Qle_bool mo (orders_val rrow)) eqn:E2.
    + apply Qle_bool_iff in E2.
      assert (E3 : Qle_bool mo' (orders_val rrow) = true)
        by (apply Qle_bool_iff; eapply Qle_trans; eassumption).
      rewrite E3. reflexivity.
    + intros [= E _]. contradiction.
  - intros [= E _]. contradiction.
Qed.

Lemma determine_winner_min_orders_monotone_witness :
  determine_winner scenarioA 100 1
  = Some (1%nat, reason_efficient ((40 / 10 - 100 / 50) / (100 / 50))).
Proof.
  apply (determine_winner_min_orders_monotone scenarioA 100 3 1 1%nat).
  - intros E; discriminate E.
  - reflexivity.
  - reflexivity.
Defined.



(** * Match types and column mapping *)

Lemma prefix_occurs needle s :
  String.prefix needle s = true <-> exists post, s = (needle ++ post)%string.
Proof.
  revert s. induction needle as [|a needle IH]; intros s; simpl.
  - split; [intros _; exists s; reflexivity | intros _; destruct s; reflexivity].
  - destruct s as [|b s]; simpl.
    + split; [discriminate|]. intros [post H].
      change (""%string = String a (needle ++ post)%string) in H. discriminate H.
    + destruct (ascii_dec a b) as [->|Hne].
      * rewrite IH. split; intros [post H]; exists post.
        -- rewrite H. reflexivity.
        -- change (String b s = String b (needle ++ post)%string) in H.
           injection H as H. exact H.
      * split; [discriminate|]. intros [post H].
        change (String b s = String a (needle ++ post)%string) in H. congruence.
Qed.

Lemma contains_cons needle c s :
  contains needle (String c s)
  = if String.prefix needle (String c s) then true else contains needle s.
Proof. reflexivity. Qed.

Lemma contains_nil needle : contains needle "" = String.prefix needle "".
Proof. destruct needle; reflexivity. Qed.

Lemma contains_occurs needle s : contains needle s = true <-> occurs needle s.
Proof.
  unfold occurs. induction s as [|c s IH].
  - rewrite contains_nil, prefix_occurs. split.
    + intros [post E]. exists ""%string, post. exact E.
    + intros (pre & post & H). destruct pre as [|c pre]; [eauto|].
      change (""%string = String c (pre ++ needle ++ post)%string) in H.
      discriminate H.
  - rewrite contains_cons.
    destruct (String.prefix needle (String c s)) eqn:E.
    + split; [intros _ | reflexivity].
      apply prefix_occurs in E. destruct E as [post E]. exists ""%string, post. exact E.
    + rewrite IH. split.
      * intros (pre & post & H). exists (String c pre), post. rewrite H. reflexivity.
      * intros (pre & post & H). destruct pre as [|c' pre].
        -- assert (String.prefix needle (String c s) = true)
             by (apply prefix_occurs; eauto).
           congruence.
        -- change (String c s = String c' (pre ++ needle ++ post)%string) in H.
           injection H as _ H. eauto.
Qed.

Lemma contains_false needle s : contains needle s = false <-> ~ occurs needle s.
Proof.
  rewrite <- contains_occurs. destruct (contains needle s); split; congruence.
Qed.

(** X6: normalize_match_type gives UNKNOWN exactly for a missing value; for a
    text value it looks for EXACT, PHRASE and BROAD, in this order, anywhere in
    the upper-cased text, and falls back to AUTO/OTHER: a text holding several
    keywords gets the first of them in that order. *)
Theorem normalize_match_type_table (str_upper : string -> string) :
  normalize_match_type str_upper None = UNKNOWN
  /\ forall v,
       let u := str_upper v in
       let m := normalize_match_type str_upper (Some v) in
       m <> UNKNOWN
       /\ (m = EXACT <-> occurs "EXACT" u)
       /\ (m = PHRASE <-> occurs "PHRASE" u /\ ~ occurs "EXACT" u)
       /\ (m = BROAD <->
           occurs "BROAD" u /\ ~ occurs "EXACT" u /\ ~ occurs "PHRASE" u)
       /\ (m = AUTO_OTHER <->
           ~ occurs "EXACT" u /\ ~ occurs "PHRASE" u /\ ~ occurs "BROAD" u).
Proof.
  split; [reflexivity|]. intros v u m. subst m. unfold normalize_match_type.
  fold u. rewrite <- !contains_false, <- !contains_occurs.
  destruct (contains "EXACT" u), (contains "PHRASE" u), (contains "BROAD" u);
    repeat split; intros; try discriminate; try tauto;
    repeat match goal with H : _ /\ _ |- _ => destruct H end; congruence.
Qed.

Lemma next_col_first (p : string -> bool) (P : string -> Prop) columns c :
  (forall x, p x = true <-> P x) ->
  next_col p columns = Some c -> first_header P columns c.
Proof.
  intros HpP. unfold next_col, first_header.
  induction columns as [|x columns IH]; simpl; [discriminate|].
  destruct (p x) eqn:E.
  - intros [= <-]. exists [], columns. split; [reflexivity|].
    split; [apply HpP; exact E | constructor].
  - intros H. destruct (IH H) as (pre & post & -> & Hc & Hpre).
    exists (x :: pre), post. split; [reflexivity|]. split; [exact Hc|].
    constructor; [|exact Hpre]. rewrite <- HpP. congruence.
Qed.

Lemma next_col_none (p : string -> bool) (P : string -> Prop) columns :
  (forall x, p x = true <-> P x) ->
  next_col p columns = None <-> ~ has_header P columns.
Proof.
  intros HpP. unfold next_col, has_header. split.
  - intros Hnone (c & Hin & Hc).
    apply HpP in Hc. pose proof (find_none _ _ Hnone c Hin). congruence.
  - intros Hno. destruct (List.find p columns) as [c|] eqn:E; [|reflexivity].
    exfalso. apply Hno. apply find_some in E. exists c. rewrite <- HpP. exact E.
Qed.

Lemma contains_or_occurs a b x :
  contains a x || contains b x = true <-> occurs a x \/ occurs b x.
Proof. rewrite orb_true_iff, !contains_occurs. reflexivity. Qed.

(** X7: the column chosen for each field is the first header, in file order,
    in which one of the field's keywords occurs (case-sensitively). *)
Theorem col_map_first_headers (columns : list string) :
  let cm := col_map_of columns in
  (forall c, cm_term cm = Some c ->
     first_header (fun x => occurs "Matched product" x
                            \/ occurs "Customer Search Term" x) columns c)
  /\ (forall c, cm_camp cm = Some c -> first_header (occurs "Campaign Name") columns c)
  /\ (forall c, cm_adg cm = Some c -> first_header (occurs "Ad Group Name") columns c)
  /\ (forall c, cm_match cm = Some c -> first_header (occurs "Match Type") columns c)
  /\ (forall c, cm_orders cm = Some c ->
        first_header (fun x => occurs "Orders" x \/ occurs "Units" x) columns c)
  /\ (forall c, cm_sales cm = Some c -> first_header (occurs "Sales") columns c)
  /\ (forall c, cm_spend cm = Some c -> first_header (occurs "Spend") columns c).
Proof.
  cbv zeta. unfold col_map_of. simpl.
  repeat split; intros c; apply next_col_first; intros x;
    solve [apply contains_occurs | apply contains_or_occurs].
Qed.

Lemma missing_columns_iff cm :
  missing_columns cm = true
  <-> cm_term cm = None \/ cm_camp cm = None \/ cm_adg cm = None
      \/ cm_match cm = None \/ cm_orders cm = None \/ cm_sales cm = None
      \/ cm_spend cm = None.
Proof.
  destruct cm as [[?|] [?|] [?|] [?|] [?|] [?|] [?|]]; simpl;
    (split; intros H;
     [ first [discriminate H | auto 10]
     | first [reflexivity | intuition discriminate] ]).
Qed.

(** X8: the "Missing columns!" branch is taken exactly when, for one of the
    seven fields, no header holds a keyword of that field. *)
Theorem col_map_missing_iff (columns : list string) :
  missing_columns (col_map_of columns) = true
  <-> ~ has_header (fun x => occurs "Matched product" x
                             \/ occurs "Customer Search Term" x) columns
      \/ ~ has_header (occurs "Campaign Name") columns
      \/ ~ has_header (occurs "Ad Group Name") columns
      \/ ~ has_header (occurs "Match Type") columns
      \/ ~ has_header (fun x => occurs "Orders" x \/ occurs "Units" x) columns
      \/ ~ has_header (occurs "Sales") columns
      \/ ~ has_header (occurs "Spend") columns.
Proof.
  rewrite missing_columns_iff. unfold col_map_of.
  cbn [cm_term cm_camp cm_adg cm_match cm_orders cm_sales cm_spend].
  rewrite (next_col_none _ _ columns (contains_or_occurs "Matched product"
                                        "Customer Search Term")).
  rewrite (next_col_none _ _ columns (contains_occurs "Campaign Name")).
  rewrite (next_col_none _ _ columns (contains_occurs "Ad Group Name")).
  rewrite (next_col_none _ _ columns (contains_occurs "Match Type")).
  rewrite (next_col_none _ _ columns (contains_or_occurs "Orders" "Units")).
  rewrite (next_col_none _ _ columns (contains_occurs "Sales")).
  rewrite (next_col_none _ _ columns (contains_occurs "Spend")).
  reflexivity.
Qed.

(** * Aggregation *)

Lemma lex_opp a b : lex (CompOpp a) (CompOpp b) = CompOpp (lex a b).
Proof. destruct a; reflexivity. Qed.

Lemma key_compare_antisym k1 k2 : key_compare k2 k1 = CompOpp (key_compare k1 k2).
Proof.
  destruct k1 as [[[t1 c1] a1] m1], k2 as [[[t2 c2] a2] m2]. unfold key_compare.
  rewrite (String.compare_antisym t2 t1), (String.compare_antisym c2 c1),
    (String.compare_antisym a2 a1),
    (String.compare_antisym (match_label m2) (match_label m1)).
  rewrite !lex_opp. reflexivity.
Qed.

#[global] Instance key_le_total : Total key_le.
Proof.
  intros k1 k2. unfold key_le. rewrite (key_compare_antisym k1 k2).
  destruct (key_compare k1 k2); simpl; [left | left | right]; congruence.
Qed.

Lemma agg_keys_in rows k :
  In k (agg_keys rows) <-> exists r, In r rows /\ group_key r = Some k.
Proof.
  unfold agg_keys. rewrite <- list_elem_of_In.
  rewrite merge_sort_Permutation, elem_of_remove_dups, list_elem_of_omap.
  split; intros (r & Hr & Hk); exists r; split; auto; apply list_elem_of_In; exact Hr.
Qed.

Lemma agg_keys_NoDup rows : List.NoDup (agg_keys rows).
Proof.
  unfold agg_keys.
  eapply Permutation_NoDup; [symmetry; apply merge_sort_Permutation|].
  apply NoDup_ListNoDup, NoDup_remove_dups.
Qed.

Lemma aggregate_row_keys rows : map row_key (aggregate rows) = agg_keys rows.
Proof.
  unfold aggregate. rewrite map_map. rewrite <- (map_id (agg_keys rows)) at 2.
  apply map_ext. intros [[[t c] a] m]. reflexivity.
Qed.

(** X9: the aggregated rows carry pairwise different keys (term, campaign,
    ad group, match type), and these keys are exactly the keys of the input
    rows in which none of the three text key columns is missing: rows with a
    missing key column are left out by the groupby. *)
Theorem aggregate_keys (rows : list CleanRow) :
  List.NoDup (map row_key (aggregate rows))
  /\ (forall k, In k (map row_key (aggregate rows)) <->
                exists r, In r rows /\ group_key r = Some k)
  /\ (forall r, In r rows -> has_key r = false ->
                forall k, In k (map row_key (aggregate rows)) ->
                          group_key r <> Some k).
Proof.
  rewrite aggregate_row_keys.
  split; [apply agg_keys_NoDup|]. split; [apply agg_keys_in|].
  intros r _ Hk k _ E. unfold has_key in Hk. rewrite E in Hk. discriminate.
Qed.

(** X10: the aggregated rows come sorted by their key, compared field by
    field as text. *)
Theorem aggregate_sorted (rows : list CleanRow) :
  Sorted key_le (map row_key (aggregate rows)).
Proof.
  rewrite aggregate_row_keys. unfold agg_keys. apply (Sorted_merge_sort key_le).
Qed.

(** *** The frame handed to the two tabs *)

Lemma range_index_in_from (rows : list Row) n i r :
  In (i, r) (combine (seq n (length rows)) rows)
  <-> (n <= i)%nat /\ nth_error rows (i - n) = Some r.
Proof.
  revert n. induction rows as [|x rows IH]; intros n; simpl.
  - split; [tauto|]. intros [_ H]. destruct (i - n)%nat; discriminate H.
  - rewrite IH. split.
    + intros [E | [Hle Hnth]].
      * injection E as -> ->. rewrite Nat.sub_diag. split; [lia | reflexivity].
      * split; [lia|]. replace (i - n)%nat with (S (i - S n)) by lia. exact Hnth.
    + intros [Hle Hnth]. destruct (Nat.eq_dec i n) as [->|Hne].
      * rewrite Nat.sub_diag in Hnth. simpl in Hnth. left. congruence.
      * right. split; [lia|].
        replace (i - n)%nat with (S (i - S n)) in Hnth by lia. exact Hnth.
Qed.

Lemma range_index_in rows i r :
  In (i, r) (range_index rows) <-> nth_error rows i = Some r.
Proof.
  unfold range_index. rewrite range_index_in_from, Nat.sub_0_r.
  split; [tauto | intros H; split; [lia | exact H]].
Qed.

Lemma build_df_agg_key_inj parse_number str_upper raw i j r1 r2 :
  In (i, r1) (build_df_agg parse_number str_upper raw) ->
  In (j, r2) (build_df_agg parse_number str_upper raw) ->
  row_key r1 = row_key r2 -> i = j.
Proof.
  unfold build_df_agg.
  set (rows := aggregate (map (clean_row parse_number str_upper) raw)).
  intros Hi Hj Hkey. apply range_index_in in Hi, Hj.
  assert (Hnd : List.NoDup (map row_key rows)).
  { unfold rows. rewrite aggregate_row_keys. apply agg_keys_NoDup. }
  rewrite NoDup_nth_error in Hnd. apply Hnd.
  - rewrite length_map. apply nth_error_Some. congruence.
  - rewrite !nth_error_map, Hi, Hj. simpl. congruence.
Qed.

(** X12: df_agg, as built from the mapped rows, is labelled 0, 1, ..., n-1,
    and two of its rows with the same (term, campaign, ad group, match type)
    are the same row: within one search term the rows differ in campaign, ad
    group or match type. *)
Theorem build_df_agg_distinct_rows (parse_number : string -> option Q)
    (str_upper : string -> string) (raw : list MappedRow) :
  let df := build_df_agg parse_number str_upper raw in
  labels df = seq 0 (length df)
  /\ forall i j r1 r2,
       In (i, r1) df -> In (j, r2) df -> row_key r1 = row_key r2 -> i = j.
Proof.
  cbv zeta. split.
  - unfold build_df_agg. rewrite range_index_labels. f_equal. unfold range_index.
    rewrite length_combine, length_seq. lia.
  - apply build_df_agg_key_inj.
Qed.

Lemma count_keep_app l1 l2 : count_keep (l1 ++ l2) = (count_keep l1 + count_keep l2)%nat.
Proof. unfold count_keep. rewrite List.filter_app, List.length_app. reflexivity. Qed.

Lemma count_keep_flat_map (g : string -> list ResultRow) terms :
  (forall t, In t terms -> count_keep (g t) = 1%nat) ->
  count_keep (flat_map g terms) = length terms.
Proof.
  induction terms as [|t terms IH]; intros Hone; simpl; [reflexivity|].
  rewrite count_keep_app, (Hone t (or_introl eq_refl)).
  rewrite IH by (intros t' Ht'; apply Hone; right; exact Ht'). reflexivity.
Qed.

(** * Harvest and promotion *)

(** X15: once a term has an EXACT row, it leaves the harvest list and nothing
    else changes: adding an EXACT row anywhere in the frame removes from the
    harvest output exactly the rows whose lower-cased term equals that of the
    new row. *)
Theorem new_opps_after_promotion (str_lower : string -> string)
    (df1 df2 : DataFrame) (e : nat * Row) :
  norm_match (snd e) = EXACT ->
  new_opps str_lower (df1 ++ e :: df2)
  = List.filter (fun r => negb (String.eqb (str_lower (search_term (snd r)))
                                           (str_lower (search_term (snd e)))))
                (new_opps str_lower (df1 ++ df2)).
Proof.
  intros He.
  assert (Hcand : candidates (df1 ++ e :: df2) = candidates (df1 ++ df2)).
  { unfold candidates. rewrite !List.filter_app. simpl. rewrite He. reflexivity. }
  assert (Hset : forall t, t ∈ exact_terms str_lower (df1 ++ e :: df2)
                           <-> t ∈ exact_terms str_lower (df1 ++ df2)
                               \/ t = str_lower (search_term (snd e))).
  { intros t. rewrite !exact_terms_spec. split.
    - intros (x & Hin & Hm & Ht). apply in_app_or in Hin.
      destruct Hin as [Hin | [<- | Hin]].
      + left. exists x. rewrite in_app_iff. auto.
      + right. symmetry. exact Ht.
      + left. exists x. rewrite in_app_iff. auto.
    - intros [(x & Hin & Hm & Ht) | ->].
      + exists x. rewrite in_app_iff in *. simpl. tauto.
      + exists e. rewrite in_app_iff. simpl. auto. }
  unfold new_opps. rewrite Hcand, filter_filter_andb.
  apply List.filter_ext. intros r.
  destruct (String.eqb_spec (str_lower (search_term (snd r)))
                            (str_lower (search_term (snd e)))) as [Heq|Hneq]; simpl.
  - rewrite andb_false_r. apply negb_false_iff, bool_decide_eq_true.
    apply Hset. right. exact Heq.
  - rewrite andb_true_r. f_equal. apply bool_decide_ext.
    rewrite Hset. tauto.
Qed.

Lemma new_opps_after_promotion_witness :
  new_opps ascii_lower
    ([ (1%nat, row_of "Blue Shoes" "C2" "G2" BROAD 1 20 5);
       (2%nat, row_of "red shoes" "C2" "G2" BROAD 2 30 5) ]
     ++ (0%nat, row_of "blue shoes" "C1" "G1" EXACT 0 0 4) :: [])
  = [ (2%nat, row_of "red shoes" "C2" "G2" BROAD 2 30 5) ].
Proof.
  rewrite (new_opps_after_promotion ascii_lower
             [ (1%nat, row_of "Blue Shoes" "C2" "G2" BROAD 1 20 5);
               (2%nat, row_of "red shoes" "C2" "G2" BROAD 2 30 5) ] []
             (0%nat, row_of "blue shoes" "C1" "G1" EXACT 0 0 4) eq_refl).
  vm_compute. reflexivity.
Defined.

(** * What counts as a conflict *)

Lemma two_rows_of_long_list {A} (l : list A) :
  (1 < length l)%nat -> exists a b rest, l = a :: b :: rest.
Proof.
  destruct l as [|a [|b rest]]; simpl; intros H; try lia. eauto.
Qed.

Lemma long_list_of_two_rows {A} (l : list A) x y :
  In x l -> In y l -> x <> y -> (1 < length l)%nat.
Proof.
  destruct l as [|a [|b rest]]; simpl; intros Hx Hy Hne.
  - destruct Hx.
  - destruct Hx as [<-|[]], Hy as [<-|[]]. contradiction.
  - lia.
Qed.

(** X16: on the frame built by the pipeline, a search term is a cannibalized
    keyword exactly when two rows of df_agg with that term and with orders > 0
    differ in campaign, ad group or match type. *)
Theorem cannibal_terms_two_targets (parse_number : string -> option Q)
    (str_upper : string -> string) (raw : list MappedRow) (t : string) :
  let df := build_df_agg parse_number str_upper raw in
  In t (cannibal_terms_of (sales_df_of df))
  <-> exists i j r1 r2,
        In (i, r1) df /\ In (j, r2) df
        /\ search_term r1 = t /\ search_term r2 = t
        /\ 0 < orders_val r1 /\ 0 < orders_val r2
        /\ (campaign r1, ad_group r1, norm_match r1)
           <> (campaign r2, ad_group r2, norm_match r2).
Proof.
  cbv zeta. set (df := build_df_agg parse_number str_upper raw).
  rewrite cannibal_terms_spec. split.
  - intros Hlen. apply two_rows_of_long_list in Hlen.
    destruct Hlen as ([i r1] & [j r2] & rest & Hl).
    assert (H1 : In (i, r1) (rows_of_term (sales_df_of df) t))
      by (rewrite Hl; left; reflexivity).
    assert (H2 : In (j, r2) (rows_of_term (sales_df_of df) t))
      by (rewrite Hl; right; left; reflexivity).
    apply rows_of_term_in in H1, H2. simpl in H1, H2.
    destruct H1 as [H1 T1], H2 as [H2 T2]. apply sales_df_in in H1, H2.
    simpl in H1, H2. destruct H1 as [H1 O1], H2 as [H2 O2].
    exists i, j, r1, r2. repeat split; try assumption.
    intros Etarget.
    assert (Hij : i = j).
    { apply (build_df_agg_key_inj parse_number str_upper raw i j r1 r2 H1 H2).
      unfold row_key. congruence. }
    assert (Hnd : List.NoDup (labels (rows_of_term (sales_df_of df) t))).
    { unfold rows_of_term, sales_df_of. do 2 apply labels_filter_NoDup.
      apply range_index_NoDup. }
    rewrite Hl in Hnd. unfold labels in Hnd. simpl in Hnd.
    inversion Hnd as [|? ? Hnotin _]. apply Hnotin. left. symmetry. exact Hij.
  - intros (i & j & r1 & r2 & H1 & H2 & T1 & T2 & O1 & O2 & Hne).
    apply (long_list_of_two_rows _ (i, r1) (j, r2)).
    + apply rows_of_term_in. split; [apply sales_df_in; auto | exact T1].
    + apply rows_of_term_in. split; [apply sales_df_in; auto | exact T2].
    + intros E. apply Hne. congruence.
Qed.

Lemma cannibal_terms_two_targets_witness :
  In "shoes"%string
     (cannibal_terms_of
        (sales_df_of (build_df_agg parse_decimal ascii_upper scenarioRaw))).
Proof.
  apply (cannibal_terms_two_targets parse_decimal ascii_upper scenarioRaw).
  exists 1%nat, 2%nat,
    (row_of "shoes" "C1" "G1" BROAD (5 + 0) (100 + 0) (50 + 0)),
    (row_of "shoes" "C2" "G2" PHRASE (1 + (2 + 0)) (15 + (25 + 0)) (4 + (6 + 0))).
  split; [vm_compute; right; left; reflexivity|].
  split; [vm_compute; right; right; left; reflexivity|].
  repeat split; try reflexivity. intros E; discriminate E.
Defined.

(** * The winner decision, whatever the rounding *)

Lemma filter_label_single (df : DataFrame) i row :
  List.NoDup (labels df) -> In (i, row) df ->
  List.filter (fun r => Nat.eqb (fst r) i) df = [(i, row)].
Proof.
  unfold labels. induction df as [|[j x] df IH]; simpl; intros Hnd Hin; [tauto|].
  inversion Hnd as [|? ? Hnotin Hnd']; subst.
  destruct Hin as [E|Hin].
  - injection E as -> ->. rewrite Nat.eqb_refl. f_equal.
    destruct (List.filter _ df) as [|y rest] eqn:F; [reflexivity|].
    exfalso. apply Hnotin.
    assert (Hy : In y (List.filter (fun r => Nat.eqb (fst r) i) df))
      by (rewrite F; left; reflexivity).
    apply filter_In in Hy. destruct Hy as [Hy Hl]. apply Nat.eqb_eq in Hl.
    rewrite <- Hl. apply in_map. exact Hy.
  - destruct (Nat.eqb j i) eqn:E; [|auto].
    apply Nat.eqb_eq in E. subst j. exfalso. apply Hnotin.
    apply (in_map fst) in Hin. exact Hin.
Qed.

Lemma loc_label_series (df : DataFrame) i row :
  List.NoDup (labels df) -> In (i, row) df -> loc_label df i = Some (Series row).
Proof.
  intros Hnd Hin. unfold loc_label.
  rewrite (filter_label_single df i row Hnd Hin). reflexivity.
Qed.

Lemma loc_label_series_in (df : DataFrame) i row :
  loc_label df i = Some (Series row) -> In (i, row) df.
Proof.
  unfold loc_label.
  destruct (List.filter _ df) as [|[j x] [|y rest]] eqn:F; try discriminate.
  intros [= <-].
  assert (Hin : In (j, x) (List.filter (fun r => Nat.eqb (fst r) i) df))
    by (rewrite F; left; reflexivity).
  apply filter_In in Hin. destruct Hin as [Hin Hl]. apply Nat.eqb_eq in Hl.
  simpl in Hl. subst j. exact Hin.
Qed.

Lemma loc_label_defined (df : DataFrame) i :
  List.NoDup (labels df) -> In i (labels df) ->
  exists row, loc_label df i = Some (Series row).
Proof.
  intros Hnd Hin. apply in_map_iff in Hin. destruct Hin as ([j row] & Hj & Hin).
  simpl in Hj. subst j. exists row. apply loc_label_series; assumption.
Qed.

Lemma determine_winner_on_decision ar group thr mo s r srow rrow :
  idxmax sales_val group = Some s -> loc_label group s = Some (Series srow) ->
  idxmax calculated_roas group = Some r -> loc_label group r = Some (Series rrow) ->
  determine_winner_on ar group thr mo = Some (decision_on ar s r srow rrow thr mo).
Proof.
  intros Hs Hsr Hr Hrr. unfold determine_winner_on, decision_on, improvement_on.
  rewrite Hs. cbn [mbind option_bind]. rewrite Hsr. cbn [mbind option_bind].
  rewrite Hr. cbn [mbind option_bind]. rewrite Hrr. cbn [mbind option_bind].
  destruct (Nat.eqb s r); [reflexivity|].
  cbn [field vmap]. cbv zeta.
  destruct (Qeq_bool (calculated_roas srow) 0);
    destruct (Qle_bool (fdiv ar thr 100) _); try reflexivity;
    destruct (Qle_bool mo (orders_val rrow)); reflexivity.
Qed.

Lemma leaders_single group :
  List.NoDup (labels group) -> group <> [] ->
  exists s r srow rrow,
    idxmax sales_val group = Some s /\ loc_label group s = Some (Series srow) /\
    idxmax calculated_roas group = Some r /\ loc_label group r = Some (Series rrow).
Proof.
  intros Hnd Hne.
  destruct (idxmax_nonempty sales_val group Hne) as [s Hs].
  destruct (idxmax_nonempty calculated_roas group Hne) as [r Hr].
  destruct (loc_label_defined group s Hnd (idxmax_in _ _ _ Hs)) as [srow Hsr].
  destruct (loc_label_defined group r Hnd (idxmax_in _ _ _ Hr)) as [rrow Hrr].
  exists s, r, srow, rrow. auto.
Qed.

Lemma decision_on_label ar s r srow rrow thr mo :
  fst (decision_on ar s r srow rrow thr mo) = s
  \/ fst (decision_on ar s r srow rrow thr mo) = r.
Proof.
  unfold decision_on. destruct (Nat.eqb s r); [left; reflexivity|].
  cbv zeta. destruct (Qle_bool _ _); [|left; reflexivity].
  destruct (Qle_bool _ _); [right | left]; reflexivity.
Qed.

Lemma determine_winner_on_total ar group thr mo :
  List.NoDup (labels group) -> group <> [] ->
  exists win reason, determine_winner_on ar group thr mo = Some (win, reason)
                     /\ In win (labels group).
Proof.
  intros Hnd Hne.
  destruct (leaders_single group Hnd Hne) as (s & r & srow & rrow & Hs & Hsr & Hr & Hrr).
  rewrite (determine_winner_on_decision ar _ thr mo _ _ _ _ Hs Hsr Hr Hrr).
  destruct (decision_on ar s r srow rrow thr mo) as [win reason] eqn:E.
  exists win, reason. split; [reflexivity|].
  pose proof (decision_on_label ar s r srow rrow thr mo) as Hl. rewrite E in Hl.
  simpl in Hl. destruct Hl as [-> | ->]; eauto using idxmax_in.
Qed.

(** With the unrounded operations and unique labels this is [determine_winner]. *)
Lemma determine_winner_on_exact group thr mo :
  List.NoDup (labels group) ->
  determine_winner_on exact_arith group thr mo = determine_winner group thr mo.
Proof.
  intros Hnd. destruct group as [|g rest] eqn:Eg; [reflexivity|]. rewrite <- Eg in *.
  assert (Hne : group <> []) by (rewrite Eg; discriminate).
  destruct (leaders_single group Hnd Hne) as (s & r & srow & rrow & Hs & Hsr & Hr & Hrr).
  rewrite (determine_winner_on_decision exact_arith _ thr mo _ _ _ _ Hs Hsr Hr Hrr).
  assert (Hsr' : loc group s = Some srow).
  { destruct (loc_defined group s (idxmax_in _ _ _ Hs)) as [x Hx].
    rewrite Hx. f_equal. apply loc_in in Hx.
    pose proof (loc_label_series group s x Hnd Hx) as E. congruence. }
  assert (Hrr' : loc group r = Some rrow).
  { destruct (loc_defined group r (idxmax_in _ _ _ Hr)) as [x Hx].
    rewrite Hx. f_equal. apply loc_in in Hx.
    pose proof (loc_label_series group r x Hnd Hx) as E. congruence. }
  rewrite (determine_winner_decision _ thr mo _ _ _ _ Hs Hsr' Hr Hrr').
  f_equal. unfold decision_on, decision, improvement_on, improvement_of, exact_arith.
  cbn [fsub fdiv]. destruct (Nat.eqb s r); [reflexivity|]. cbv zeta.
  destruct (Qle_bool (thr / 100) _); [|reflexivity].
  destruct (Qle_bool mo _); reflexivity.
Qed.





(** X2: on a group with unique labels, whatever the rounding,
    determine_winner raises exactly when the group is empty; otherwise the
    index it returns is a label of the group and is that of the sales leader
    or that of the ROAS leader. *)
Theorem determine_winner_on_result (ar : Arith) group thr mo :
  List.NoDup (labels group) ->
  (determine_winner_on ar group thr mo = None <-> group = [])
  /\ (forall win reason,
        determine_winner_on ar group thr mo = Some (win, reason) ->
        In win (labels group)
        /\ (idxmax sales_val group = Some win
            \/ idxmax calculated_roas group = Some win)).
Proof.
  intros Hnd. split.
  - split.
    + intros Hnone. destruct group as [|g rest] eqn:Eg; [reflexivity|].
      rewrite <- Eg in *.
      destruct (determine_winner_on_total ar group thr mo Hnd) as (w & re & Hw & _);
        [rewrite Eg; discriminate | congruence].
    + intros ->. reflexivity.
  - intros win reason Hwin.
    destruct group as [|g rest] eqn:Eg; [discriminate Hwin|]. rewrite <- Eg in *.
    assert (Hne : group <> []) by (rewrite Eg; discriminate).
    destruct (leaders_single group Hnd Hne) as (s & r & srow & rrow & Hs & Hsr & Hr & Hrr).
    rewrite (determine_winner_on_decision ar _ thr mo _ _ _ _ Hs Hsr Hr Hrr) in Hwin.
    injection Hwin as Hwin.
    pose proof (decision_on_label ar s r srow rrow thr mo) as Hl.
    rewrite Hwin in Hl. simpl in Hl.
    destruct Hl as [-> | ->]; split; eauto using idxmax_in.
Qed.

Lemma determine_winner_on_result_witness :
  determine_winner_on binary64_arith scenarioA 100 2 <> None
  /\ forall win reason,
       determine_winner_on binary64_arith scenarioA 100 2 = Some (win, reason) ->
       In win [0%nat; 1%nat].
Proof.
  assert (Hnd : List.NoDup (labels scenarioA)).
  { repeat constructor; simpl; intuition discriminate. }
  destruct (determine_winner_on_result binary64_arith scenarioA 100 2 Hnd)
    as [Hnone Hsome].
  split.
  - intros E. apply Hnone in E. discriminate E.
  - intros win reason Hwin. apply (Hsome win reason Hwin).
Defined.

(** A duplicated label on a leader, with distinct leaders, makes the call
    raise; with one leader for both columns it does not. *)
Example determine_winner_on_duplicate_label :
  determine_winner_on binary64_arith
    [ (0%nat, row_of "t" "C1" "G1" BROAD 1 5 5);
      (0%nat, row_of "t" "C2" "G2" BROAD 1 3 5);
      (1%nat, row_of "t" "C3" "G3" BROAD 1 4 1) ] 100 1 = None
  /\ determine_winner_on binary64_arith
       [ (0%nat, row_of "t" "C1" "G1" BROAD 1 5 1);
         (0%nat, row_of "t" "C2" "G2" BROAD 1 3 5) ] 100 1
     = Some (0%nat, reason_best).
Proof. split; vm_compute; reflexivity. Qed.

(** X3: with single-row, distinct leaders, whatever the rounding, the ROAS
    leader is returned if and only if the improvement as the code computes it
    (999 when the sales leader's ROAS is 0) reaches improvement_thresh / 100 as
    the code computes it and the ROAS leader's orders reach min_orders; the
    reason is then the "Efficient Choice" one. *)
Theorem determine_winner_on_challenger_iff (ar : Arith) group thr mo s r srow rrow :
  idxmax sales_val group = Some s -> loc_label group s = Some (Series srow) ->
  idxmax calculated_roas group = Some r -> loc_label group r = Some (Series rrow) ->
  s <> r ->
  let improvement := improvement_on ar (calculated_roas srow) (calculated_roas rrow) in
  ((exists reason, determine_winner_on ar group thr mo = Some (r, reason))
   <-> fdiv ar thr 100 <= improvement /\ mo <= orders_val rrow)
  /\ (forall reason, determine_winner_on ar group thr mo = Some (r, reason) ->
                     reason = reason_efficient improvement).
Proof.
  intros Hs Hsr Hr Hrr Hne improvement.
  rewrite (determine_winner_on_decision ar _ thr mo _ _ _ _ Hs Hsr Hr Hrr).
  unfold decision_on. pose proof Hne as Hne'. apply Nat.eqb_neq in Hne'. rewrite Hne'.
  cbv zeta. fold improvement.
  rewrite <- !Qle_bool_iff.
  destruct (Qle_bool (fdiv ar thr 100) improvement); simpl;
    [destruct (Qle_bool mo (orders_val rrow)); simpl|].
  - split; [split; [auto | eauto]|]. intros reason [= <-]. reflexivity.
  - split; [split; [intros [reason [= E _]]; congruence | intros [_ E]; discriminate E]|].
    intros reason [= E _]. congruence.
  - split; [split; [intros [reason [= E _]]; congruence | intros [E _]; discriminate E]|].
    intros reason [= E _]. congruence.
Qed.

Lemma determine_winner_on_challenger_iff_witness :
  (exists reason,
      determine_winner_on binary64_arith (scenarioRounding binary64_arith) 30 2
      = Some (1%nat, reason))
  /\ ~ (exists reason,
           determine_winner_on binary64_arith (scenarioRounding binary64_arith) 30 4
           = Some (1%nat, reason)).
Proof.
  pose (r0 := row_on binary64_arith "lamp" "C1" "G1" BROAD 5 300 100).
  pose (r1 := row_on binary64_arith "lamp" "C2" "G2" PHRASE 3 39 10).
  assert (Hne : 0%nat <> 1%nat) by (intros E; discriminate E).
  assert (H0 : idxmax sales_val (scenarioRounding binary64_arith) = Some 0%nat)
    by (vm_compute; reflexivity).
  assert (H1 : idxmax calculated_roas (scenarioRounding binary64_arith) = Some 1%nat)
    by (vm_compute; reflexivity).
  split.
  - apply (proj1 (determine_winner_on_challenger_iff binary64_arith
                    (scenarioRounding binary64_arith) 30 2 0%nat 1%nat r0 r1
                    H0 eq_refl H1 eq_refl Hne)).
    split; apply Qle_bool_iff; vm_compute; reflexivity.
  - intros H.
    apply (proj1 (determine_winner_on_challenger_iff binary64_arith
                    (scenarioRounding binary64_arith) 30 4 0%nat 1%nat r0 r1
                    H0 eq_refl H1 eq_refl Hne)) in H.
    destruct H as [_ H]. apply H. reflexivity.
Defined.

Lemma slider_thresholds_below_999 thr :
  In thr roas_threshold_values ->
  Qle_bool (fdiv binary64_arith thr 100) 999 = true.
Proof.
  assert (Hall : forallb (fun v => Qle_bool (fdiv binary64_arith v 100) 999)
                         roas_threshold_values = true)
    by (vm_compute; reflexivity).
  rewrite forallb_forall in Hall. apply Hall.
Qed.

(** X17: in double precision and for every value the threshold slider can
    return (30, 40, ..., 200), a group whose single-row sales leader has ROAS
    0 and whose ROAS leader is another single row returns the ROAS leader
    with "Efficient Choice" and improvement 999 when its orders reach
    min_orders, and the sales leader with the reason reporting the
    challenger's orders otherwise. *)
Theorem determine_winner_slider_zero_roas thr group mo s r srow rrow :
  In thr roas_threshold_values ->
  idxmax sales_val group = Some s -> loc_label group s = Some (Series srow) ->
  idxmax calculated_roas group = Some r -> loc_label group r = Some (Series rrow) ->
  s <> r -> calculated_roas srow == 0 ->
  (mo <= orders_val rrow ->
   determine_winner_on binary64_arith group thr mo = Some (r, reason_efficient 999))
  /\ (orders_val rrow < mo ->
      determine_winner_on binary64_arith group thr mo
      = Some (s, reason_vol_challenger (orders_val rrow))).
Proof.
  intros Hthr Hs Hsr Hr Hrr Hne Hz.
  rewrite (determine_winner_on_decision _ _ thr mo _ _ _ _ Hs Hsr Hr Hrr).
  unfold decision_on. apply Nat.eqb_neq in Hne. rewrite Hne. cbv zeta.
  unfold improvement_on. apply Qeq_bool_iff in Hz. rewrite Hz.
  rewrite (slider_thresholds_below_999 thr Hthr).
  split; intros Ho.
  - apply Qle_bool_iff in Ho. rewrite Ho. reflexivity.
  - apply Qlt_not_le, Qle_bool_false_iff in Ho. rewrite Ho. reflexivity.
Qed.

Lemma determine_winner_slider_zero_roas_witness :
  determine_winner_on binary64_arith scenarioZero 200 2
  = Some (0%nat, reason_efficient 999).
Proof.
  refine (proj1 (determine_winner_slider_zero_roas 200 scenarioZero 2 1%nat 0%nat
                   (row_of "cap" "C2" "G2" PHRASE 5 100 0)
                   (row_of "cap" "C1" "G1" BROAD 2 10 0) _ _ _ _ _ _ _) _);
    try reflexivity; try (intros E; discriminate E).
  vm_compute. do 17 right. left. reflexivity.
Defined.

(** * The cannibalization tab, whatever the rounding *)

Lemma conflict_group_labels df t :
  List.NoDup (labels df) ->
  List.NoDup (labels (rows_of_term (sales_df_of df) t)).
Proof.
  intros Hnd. unfold rows_of_term, sales_df_of.
  do 2 apply labels_filter_NoDup. exact Hnd.
Qed.

Lemma conflict_group_winner ar df thr mo t :
  List.NoDup (labels df) ->
  In t (cannibal_terms_of (sales_df_of df)) ->
  exists win reason,
    determine_winner_on ar (rows_of_term (sales_df_of df) t) thr mo
    = Some (win, reason)
    /\ In win (labels (rows_of_term (sales_df_of df) t))
    /\ group_results_on ar (sales_df_of df) thr mo t
       = map (result_row t win reason) (rows_of_term (sales_df_of df) t).
Proof.
  intros Hnd Ht.
  destruct (determine_winner_on_total ar (rows_of_term (sales_df_of df) t) thr mo
              (conflict_group_labels df t Hnd)
              (cannibal_group_nonempty _ t Ht)) as (win & reason & Hwin & Hlab).
  exists win, reason. split; [exact Hwin|]. split; [exact Hlab|].
  unfold group_results_on. rewrite Hwin. reflexivity.
Qed.

Lemma results_loop_on_spec ar sdf thr mo terms acc :
  (forall t, In t terms ->
     exists win reason,
       determine_winner_on ar (rows_of_term sdf t) thr mo = Some (win, reason)) ->
  results_loop_on ar sdf thr mo terms acc
  = Some (acc ++ flat_map (group_results_on ar sdf thr mo) terms).
Proof.
  revert acc. induction terms as [|t terms IH]; intros acc Hwin; simpl.
  - rewrite app_nil_r. reflexivity.
  - destruct (Hwin t (or_introl eq_refl)) as (win & reason & Hw).
    unfold group_results_on at 1. rewrite Hw.
    rewrite IH by (intros t' Ht'; apply Hwin; right; exact Ht').
    rewrite <- app_assoc. reflexivity.
Qed.

Lemma tab1_on_unfold ar df thr mo :
  List.NoDup (labels df) ->
  tab1_on ar df thr mo
  = match cannibal_terms_of (sales_df_of df) with
    | [] => StSuccess "✅ No cannibalization found! Your account structure is clean."
    | _ => ActionPlan (flat_map (group_results_on ar (sales_df_of df) thr mo)
                                (cannibal_terms_of (sales_df_of df)))
    end.
Proof.
  intros Hnd. unfold tab1_on.
  destruct (cannibal_terms_of (sales_df_of df)) as [|t terms] eqn:E; [reflexivity|].
  rewrite <- E. rewrite results_loop_on_spec; [reflexivity|].
  intros t' Ht'.
  destruct (conflict_group_winner ar df thr mo t' Hnd Ht') as (w & re & Hw & _).
  eauto.
Qed.

(** C6: on a frame with unique labels (as df_agg has) and whatever the
    rounding: only rows with orders > 0 enter the analysis; a group is the
    rows with orders > 0 of one search_term; the conflict terms are, without
    repetition, the terms whose group has more than one row; with no conflict
    term the tab shows the success message and no table; otherwise it shows a
    table, never an error, and the table is, conflict term after conflict
    term, the rows of that term's group annotated with the one result that
    determine_winner returns on exactly that group. *)
Theorem tab1_on_conflict_groups (ar : Arith) df thr mo :
  List.NoDup (labels df) ->
  (forall ir, In ir (sales_df_of df) <-> In ir df /\ 0 < orders_val (snd ir))
  /\ (forall t ir, In ir (rows_of_term (sales_df_of df) t) <->
                   In ir df /\ 0 < orders_val (snd ir) /\ search_term (snd ir) = t)
  /\ List.NoDup (cannibal_terms_of (sales_df_of df))
  /\ (forall t, In t (cannibal_terms_of (sales_df_of df)) <->
                (1 < length (rows_of_term (sales_df_of df) t))%nat)
  /\ (cannibal_terms_of (sales_df_of df) = [] ->
      exists msg, tab1_on ar df thr mo = StSuccess msg)
  /\ (cannibal_terms_of (sales_df_of df) <> [] ->
      tab1_on ar df thr mo
      = ActionPlan (flat_map (group_results_on ar (sales_df_of df) thr mo)
                             (cannibal_terms_of (sales_df_of df))))
  /\ (forall t, In t (cannibal_terms_of (sales_df_of df)) ->
        exists win reason,
          determine_winner_on ar (rows_of_term (sales_df_of df) t) thr mo
          = Some (win, reason)
          /\ group_results_on ar (sales_df_of df) thr mo t
             = map (result_row t win reason) (rows_of_term (sales_df_of df) t)).
Proof.
  intros Hnd. pose proof (tab1_on_unfold ar df thr mo Hnd) as E.
  split; [apply sales_df_in|]. split.
  { intros t ir. rewrite rows_of_term_in, sales_df_in. tauto. }
  split; [apply cannibal_terms_NoDup|]. split; [apply cannibal_terms_spec|].
  split; [|split].
  - intros Hnil. rewrite E, Hnil. eauto.
  - intros Hne. rewrite E.
    destruct (cannibal_terms_of (sales_df_of df)); [congruence | reflexivity].
  - intros t Ht.
    destruct (conflict_group_winner ar df thr mo t Hnd Ht) as (w & re & Hw & _ & Hg).
    eauto.
Qed.

Lemma tab1_on_conflict_groups_witness :
  (exists msg, tab1_on binary64_arith scenarioClean 100 2 = StSuccess msg)
  /\ (exists win reason,
        determine_winner_on binary64_arith
          (rows_of_term (sales_df_of scenarioTable) "shoes") 100 2
        = Some (win, reason)
        /\ tab1_on binary64_arith scenarioTable 100 2
           = ActionPlan
               (group_results_on binary64_arith (sales_df_of scenarioTable) 100 2 "cap"
                ++ map (result_row "shoes" win reason)
                       (rows_of_term (sales_df_of scenarioTable) "shoes"))).
Proof.
  split.
  - apply (tab1_on_conflict_groups binary64_arith scenarioClean 100 2).
    + apply range_index_NoDup.
    + vm_compute. reflexivity.
  - destruct (tab1_on_conflict_groups binary64_arith scenarioTable 100 2
                (range_index_NoDup _)) as (_ & _ & _ & _ & _ & Hplan & Hgrp).
    assert (Hterms : cannibal_terms_of (sales_df_of scenarioTable) = ["cap"; "shoes"])
      by (vm_compute; reflexivity).
    rewrite Hterms in Hplan, Hgrp.
    destruct (Hgrp "shoes"%string (or_intror (or_introl eq_refl)))
      as (win & reason & Hw & Hg).
    exists win, reason. split; [exact Hw|].
    rewrite Hplan by discriminate. cbn [flat_map]. rewrite app_nil_r, Hg. reflexivity.
Defined.

Lemma keep_or_negate (l : list ResultRow) :
  (length (List.filter is_negate l) + count_keep l = length l)%nat.
Proof.
  unfold count_keep, is_negate, is_keep.
  induction l as [|r l IH]; simpl; [reflexivity|].
  destruct (res_status r); simpl; lia.
Qed.

(** X14: in the action plan of a frame with unique labels, whatever the
    rounding, the number of KEEP rows is the number of cannibalized keywords
    shown in the first metric, and the NEGATE rows are all the other rows. *)
Theorem tab1_on_counts (ar : Arith) df thr mo res :
  List.NoDup (labels df) ->
  tab1_on ar df thr mo = ActionPlan res ->
  count_keep res = length (cannibal_terms_of (sales_df_of df))
  /\ (length (List.filter is_negate res)
      + length (cannibal_terms_of (sales_df_of df)) = length res)%nat.
Proof.
  intros Hnd Hview. rewrite (tab1_on_unfold ar df thr mo Hnd) in Hview.
  assert (Hres : res = flat_map (group_results_on ar (sales_df_of df) thr mo)
                                (cannibal_terms_of (sales_df_of df))).
  { destruct (cannibal_terms_of (sales_df_of df)); [discriminate Hview|].
    injection Hview as <-. reflexivity. }
  assert (Hkeep : count_keep res = length (cannibal_terms_of (sales_df_of df))).
  { rewrite Hres. apply count_keep_flat_map. intros t Ht.
    destruct (conflict_group_winner ar df thr mo t Hnd Ht) as (w & re & _ & Hlab & Hg).
    rewrite Hg, count_keep_map.
    apply label_count_one; [apply conflict_group_labels; exact Hnd | exact Hlab]. }
  split; [exact Hkeep|]. pose proof (keep_or_negate res). lia.
Qed.

Lemma tab1_on_counts_witness :
  exists res,
    tab1_on binary64_arith scenarioTable 100 2 = ActionPlan res
    /\ count_keep res = 2%nat
    /\ (length (List.filter is_negate res) + 2 = length res)%nat.
Proof.
  destruct (tab1_on binary64_arith scenarioTable 100 2) as [msg|res|] eqn:E;
    try (exfalso; revert E; vm_compute; discriminate).
  exists res. split; [reflexivity|].
  destruct (tab1_on_counts binary64_arith scenarioTable 100 2 res
              (range_index_NoDup _) E) as [Hk Hn].
  assert (Hterms : length (cannibal_terms_of (sales_df_of scenarioTable)) = 2%nat)
    by (vm_compute; reflexivity).
  rewrite Hterms in Hk, Hn. split; assumption.
Defined.

(** * The harvest filter, stated from the frame alone *)

Lemma exact_twin_spec str_lower df r :
  exact_twin str_lower df r = true
  <-> exists e, In e df /\ norm_match (snd e) = EXACT
                /\ str_lower (search_term (snd e))
                   = str_lower (search_term (snd r)).
Proof.
  unfold exact_twin. rewrite existsb_exists.
  split; intros (e & Hin & H); exists e; split; try exact Hin.
  - apply andb_true_iff in H. destruct H as [Hm Ht].
    apply MatchType_eqb_eq in Hm. apply String.eqb_eq in Ht. auto.
  - destruct H as [Hm Ht]. apply andb_true_iff.
    split; [apply MatchType_eqb_eq; exact Hm | apply String.eqb_eq; exact Ht].
Qed.

Lemma exact_twin_in_set str_lower df r :
  bool_decide (str_lower (search_term (snd r)) ∈ exact_terms str_lower df)
  = exact_twin str_lower df r.
Proof.
  destruct (exact_twin str_lower df r) eqn:E.
  - apply bool_decide_eq_true, exact_terms_spec, exact_twin_spec. exact E.
  - apply bool_decide_eq_false. intros Hin.
    apply exact_terms_spec, exact_twin_spec in Hin. congruence.
Qed.

(** C7: the harvest output is exactly the frame, in its order and with its
    repetitions, filtered by: match type is not EXACT, orders >= 1, and no
    EXACT row of the frame has the same lower-cased search term.  So a row is
    in the output if and only if it is such a row of the frame, and no output
    row shares its lower-cased term with an EXACT row. *)
Theorem new_opps_exactly (str_lower : string -> string) (df : DataFrame) :
  new_opps str_lower df
    = List.filter (fun r => negb (MatchType_eqb (norm_match (snd r)) EXACT)
                            && Qle_bool 1 (orders_val (snd r))
                            && negb (exact_twin str_lower df r)) df
  /\ (forall r, In r (new_opps str_lower df) <->
                In r df /\ norm_match (snd r) <> EXACT /\ 1 <= orders_val (snd r)
                /\ forall e, In e df -> norm_match (snd e) = EXACT ->
                             str_lower (search_term (snd e))
                             <> str_lower (search_term (snd r)))
  /\ (forall e r, In e df -> norm_match (snd e) = EXACT ->
                  In r (new_opps str_lower df) ->
                  str_lower (search_term (snd r)) <> str_lower (search_term (snd e))).
Proof.
  assert (Heq : new_opps str_lower df
    = List.filter (fun r => negb (MatchType_eqb (norm_match (snd r)) EXACT)
                            && Qle_bool 1 (orders_val (snd r))
                            && negb (exact_twin str_lower df r)) df).
  { unfold new_opps, candidates. rewrite filter_filter_andb.
    apply List.filter_ext. intros r. rewrite exact_twin_in_set. reflexivity. }
  assert (Hiff : forall r, In r (new_opps str_lower df) <->
                In r df /\ norm_match (snd r) <> EXACT /\ 1 <= orders_val (snd r)
                /\ forall e, In e df -> norm_match (snd e) = EXACT ->
                             str_lower (search_term (snd e))
                             <> str_lower (search_term (snd r))).
  { intros r. rewrite Heq, filter_In, !andb_true_iff, !negb_true_iff, Qle_bool_iff.
    rewrite <- not_true_iff_false, MatchType_eqb_eq.
    rewrite <- (not_true_iff_false (exact_twin str_lower df r)), exact_twin_spec.
    split.
    - intros (Hin & (Hm & Ho) & Hno). repeat split; try assumption.
      intros e He Hme Ht. apply Hno. exists e. auto.
    - intros (Hin & Hm & Ho & Hno). repeat split; try assumption.
      intros (e & He & Hme & Ht). exact (Hno e He Hme Ht). }
  split; [exact Heq|]. split; [exact Hiff|].
  intros e r He Hm Hr Ht. apply Hiff in Hr. destruct Hr as (_ & _ & _ & Hno).
  apply (Hno e He Hm). symmetry. exact Ht.
Qed.

(** Scenario C of the specification. *)
Lemma new_opps_exactly_witness :
  new_opps ascii_lower scenarioC
  = [ (2%nat, row_of "red shoes" "C2" "G2" BROAD 2 30 5) ]
  /\ ~ In (1%nat, row_of "Blue Shoes" "C2" "G2" BROAD 1 20 5)
          (new_opps ascii_lower scenarioC).
Proof.
  destruct (new_opps_exactly ascii_lower scenarioC) as (Heq & _ & Hex).
  split.
  - rewrite Heq. vm_compute. reflexivity.
  - intros Hin.
    apply (Hex (0%nat, row_of "blue shoes" "C1" "G1" EXACT 0 0 4) _
               (or_introl eq_refl) eq_refl Hin).
    reflexivity.
Defined.
